(** * h3_arcgis: multi-resolution H3 hexbin aggregation

    A shallow embedding of [src/h3_arcgis/__init__.py] and the properties of
    its point-aggregation pipeline and of its area-of-interest helper.

    - The H3 grid library ([h3.geo_to_h3], [h3.h3_to_parent], [h3.polyfill],
      [h3.h3_to_geo_boundary]) is external to the repository: it is an
      interface ([H3Lib]) whose hierarchy laws ([H3Laws]) are stated
      separately and assumed only by the theorems that need them.
    - A pandas DataFrame is a list of typed rows together with the list of
      its h3 column names.  NaN is [None].  What pandas raises is kept:
      KeyError for a column that is not there, ValueError for a column
      created from a scalar in a frame without rows.
    - The pipeline stages mutate the DataFrame they are handed and return
      that same object, so DataFrames live in a store and the stages take
      and return references. *)

From stdpp Require Import base option list gmap sorting numbers.

(** ** External capabilities *)

(** The calls the module makes into the [h3] package (version 3 API).
    [h3_get_resolution] is not called by the module; it is the library's
    own accessor and is used to state the hierarchy laws. *)
Class H3Lib := {
  Cell : Type;
  Cell_eq_dec :: EqDecision Cell;
  coord : Type;
  ring : Type;
  geo_to_h3 : coord → coord → nat → Cell;
  h3_to_parent : Cell → nat → Cell;
  h3_get_resolution : Cell → nat;
  h3_to_geo_boundary : Cell → ring;
  polyfill : list ring → nat → list Cell;
}.

(** The facts about the H3 hierarchy that the pipeline relies on: an index
    carries its resolution, and taking parents composes. *)
Class H3Laws `{H3Lib} : Prop := {
  geo_to_h3_resolution lat lng res :
    h3_get_resolution (geo_to_h3 lat lng res) = res;
  h3_to_parent_resolution c res :
    res ≤ h3_get_resolution c → h3_get_resolution (h3_to_parent c res) = res;
  h3_to_parent_parent c res res' :
    res ≤ res' → res' ≤ h3_get_resolution c →
    h3_to_parent (h3_to_parent c res') res = h3_to_parent c res;
}.

(** ** Exceptions and the state monad *)

Inductive column := H3 (lvl : nat) | H3_ID | H3_LVL | H3_ORIG.

Global Instance column_eq_dec : EqDecision column.
Proof. solve_decision. Defined.

Inductive exn :=
  | AssertionError
  | KeyError
  | IndexError
  | ValueError
  | NameError
  | Exception_too_coarse (hex_level : nat).

Inductive result (A : Type) := Ok (a : A) | Raise (e : exn).
Global Arguments Ok {A} a.
Global Arguments Raise {A} e.

(** A computation over a mutable state [S].  The state is returned on both
    outcomes: what was written before an exception stays written. *)
Definition state (S A : Type) : Type := S → result A * S.

Global Instance state_ret {S} : MRet (state S) := λ A a s, (Ok a, s).
Global Instance state_bind {S} : MBind (state S) := λ A B k m s,
  match m s with
  | (Ok a, s') => k a s'
  | (Raise e, s') => (Raise e, s')
  end.

Global Instance state_fmap {S} : FMap (state S) := λ A B f m,
  a ← m; mret (f a).

Definition raise {S A} (e : exn) : state S A := λ s, (Raise e, s).
Definition get {S} : state S S := λ s, (Ok s, s).
Definition modify {S} (f : S → S) : state S unit := λ s, (Ok (), f s).
Definition assert_ {S} (b : bool) : state S unit :=
  if b then mret () else raise AssertionError.

(** [for x in l: body x] *)
Fixpoint for_ {S A} (l : list A) (body : A → state S unit) : state S unit :=
  match l with
  | [] => mret ()
  | x :: l => body x;; for_ l body
  end.

(** [l.sort()] and [l.sort(reverse=True)] on a list of levels *)
Definition sort (l : list nat) : list nat := merge_sort (≤) l.
Definition sort_reverse (l : list nat) : list nat := merge_sort (flip (≤)) l.

(** ** Tables *)

Section tables.
Context `{H3Lib}.

(** An ArcGIS point geometry; [centroid] is [(x, y)]. *)
Record Geometry := mkGeometry { centroid : coord * coord }.

(** An ArcGIS polygon geometry. *)
Record Polygon := mkPolygon { rings : list ring; spatialReference : nat }.

(** A row of the point table: the geometry, the cell id in each [h3_NN]
    column (keyed by NN) and the three assignment columns. *)
Record Row := mkRow {
  SHAPE : Geometry;
  h3 : gmap nat Cell;
  h3_id : option Cell;
  h3_lvl : option nat;
  h3_orig : option nat;
}.

Record DataFrame := mkDataFrame { columns : list column; rows : list Row }.

(** A row of the area-of-interest table and a row of the output table. *)
Record AoiRow := mkAoiRow { aoi_SHAPE : Polygon }.

Record HexRow := mkHexRow {
  hex_h3_id : Cell;
  hex_SHAPE : Polygon;
  hex_count : option nat;
  hex_h3_lvl : option nat;
}.

End tables.

(** References to DataFrames, statements on one DataFrame, and programs on
    the store of all DataFrames. *)
Definition ref := positive.
Abbreviation St := (state DataFrame).
Abbreviation M := (state (gmap ref DataFrame)).

Section h3_arcgis.
Context `{H3Lib}.

(** Run statements on the object a reference points to.  The object is
    updated in the store; every other reference to it sees the update. *)
Definition on_ref {A} (r : ref) (m : St A) : M A := λ σ,
  match σ !! r with
  | Some d => let '(x, d') := m d in (x, <[r := d']> σ)
  | None => (Raise NameError, σ)
  end.

(** *** Column names *)

Definition h3_id_col : column := H3_ID.
Definition h3_lvl_col : column := H3_LVL.
Definition h3_lvl_orig_col : column := H3_ORIG.

(** [f'h3_{h3_lvl:02d}'].  Levels are natural numbers and the two-digit
    text of a level is identified with the level, which is exact for the
    levels 0..99 (H3 has the resolutions 0..15). *)
Definition _h3_col (h3_lvl : nat) : column := H3 h3_lvl.

Definition _get_h3_range_lst (h3_min h3_max : nat) : list nat :=
  seq h3_min (h3_max + 1 - h3_min).

Definition h3_level_of (c : column) : option nat :=
  match c with H3 lvl => Some lvl | _ => None end.

Definition _get_h3_range_lst_from_df (df : DataFrame) : list nat :=
  omap h3_level_of (columns df).

(** *** DataFrame primitives

    A Series computed from the table's own columns is the function giving
    its entry from a row, so that alignment on the index is the identity. *)

Definition set_h3 (lvl : nat) (v : option Cell) (r : Row) : Row :=
  mkRow (SHAPE r) (partial_alter (λ _, v) lvl (h3 r)) (h3_id r) (h3_lvl r) (h3_orig r).
Definition set_h3_id (v : option Cell) (r : Row) : Row :=
  mkRow (SHAPE r) (h3 r) v (h3_lvl r) (h3_orig r).
Definition set_h3_lvl (v : option nat) (r : Row) : Row :=
  mkRow (SHAPE r) (h3 r) (h3_id r) v (h3_orig r).
Definition set_h3_orig (v : option nat) (r : Row) : Row :=
  mkRow (SHAPE r) (h3 r) (h3_id r) (h3_lvl r) v.

Definition add_column (c : column) (cols : list column) : list column :=
  if decide (c ∈ cols) then cols else cols ++ [c].

(** [df[c]] for an [h3_NN] column and for the [h3_id] column *)
Definition getitem_h3 (lvl : nat) : St (Row → option Cell) := λ d,
  if decide (H3 lvl ∈ columns d) then (Ok (λ r, h3 r !! lvl), d)
  else (Raise KeyError, d).

Definition getitem_h3_id : St (Row → option Cell) := λ d,
  if decide (h3_id_col ∈ columns d) then (Ok h3_id, d)
  else (Raise KeyError, d).

(** [df[_h3_col(lvl)] = values] *)
Definition set_column_h3 (lvl : nat) (values : Row → option Cell)
    (d : DataFrame) : DataFrame :=
  mkDataFrame (add_column (H3 lvl) (columns d))
              ((λ r, set_h3 lvl (values r) r) <$> rows d).

Definition setitem_h3 (lvl : nat) (values : Row → option Cell) : St unit :=
  modify (set_column_h3 lvl values).

(** The NaN a new column [c] holds in row [r] before it is written to *)
Definition fill_new {V} (c : column) (put : option V → Row → Row)
    (cols : list column) (r : Row) : Row :=
  if bool_decide (c ∈ cols) then r else put None r.

(** [df.loc[mask, c] = values].  A column that does not exist yet is first
    created, filled with NaN.  [put] is the field the column is stored in. *)
Definition loc_set {V} (c : column) (put : option V → Row → Row)
    (mask : Row → bool) (values : Row → option V) (d : DataFrame) : DataFrame :=
  let fill := fill_new c put (columns d) in
  mkDataFrame (add_column c (columns d))
    ((λ r, if mask r then put (values r) (fill r) else fill r) <$> rows d).

Definition loc_setitem {V} (c : column) (put : option V → Row → Row)
    (mask : Row → bool) (values : Row → option V) : St unit :=
  modify (loc_set c put mask values).

(** [df.loc[mask, c] = value] for a scalar [value].  pandas does not create
    a column from a scalar in a frame that has no rows: "ValueError: cannot
    set a frame with no defined index and a scalar". *)
Definition loc_setitem_scalar {V} (c : column) (put : option V → Row → Row)
    (mask : Row → bool) (value : V) : St unit := λ d,
  if decide (c ∈ columns d ∨ 0 < length (rows d))
  then (Ok (), loc_set c put mask (λ _, Some value) d)
  else (Raise ValueError, d).

Definition isna (c : column) (r : Row) : bool :=
  match c with
  | H3 lvl => bool_decide (h3 r !! lvl = None)
  | H3_ID => bool_decide (h3_id r = None)
  | H3_LVL => bool_decide (h3_lvl r = None)
  | H3_ORIG => bool_decide (h3_orig r = None)
  end.

(** [df.dropna(subset=subset, inplace=True)] *)
Definition dropna (subset : list column) : St unit := λ d,
  if decide (subset ⊆ columns d) then
    (Ok (), mkDataFrame (columns d)
              (filter (λ r, Forall (λ c, isna c r = false) subset) (rows d)))
  else (Raise KeyError, d).

(** The entries of a Series, in row order *)
Definition values {V} (series : Row → V) : St (list V) := λ d,
  (Ok (series <$> rows d), d).

(** The distinct entries of a list in order of first appearance:
    [series.unique()] (NaN included), [df.drop_duplicates()], and the
    members of a Python [set], whose order is unspecified. *)
Fixpoint drop_duplicates {V} `{EqDecision V} (l : list V) : list V :=
  match l with
  | [] => []
  | x :: l => x :: filter (λ y, y ≠ x) (drop_duplicates l)
  end.

Definition unique (s : list (option Cell)) : list (option Cell) :=
  drop_duplicates s.

(** [series.value_counts()]: the distinct non-NaN values with the number of
    times each occurs.  pandas orders them by falling count; no caller here
    depends on the order. *)
Definition value_counts (s : list (option Cell)) : list (Cell * nat) :=
  let vals := omap id s in
  (λ c, (c, length (filter (c =.) vals))) <$> drop_duplicates vals.

(** [series.isin(values)] on one entry; NaN is found when [values] has it *)
Definition isin {V} `{EqDecision V} (values : list V) (v : V) : bool :=
  bool_decide (v ∈ values).

(** [left.join(right, on=key)]: a left join on the index of [right] *)
Definition join {A K V} `{EqDecision K} (key : A → K) (left : list A)
    (right : list (K * V)) : list (A * option V) :=
  left ≫= λ a,
    match filter (λ p, p.1 = key a) right with
    | [] => [(a, None)]
    | matches => (λ p, (a, Some p.2)) <$> matches
    end.

(** ** Stage 1: add_h3_ids_to_points *)

Definition add_h3_ids_to_points (df : ref) (h3_max h3_min : nat) : M ref :=
  on_ref df (
    assert_ (bool_decide (h3_min < h3_max));;
    let h3_lvl_lst := sort_reverse (_get_h3_range_lst h3_min h3_max) in
    match h3_lvl_lst with
    | [] => raise IndexError
    | first_level :: h3_lvl_lst_1 =>
        setitem_h3 first_level (λ r,
          Some (geo_to_h3 (centroid (SHAPE r)).2 (centroid (SHAPE r)).1 first_level));;
        for_ h3_lvl_lst_1 (λ h3_lvl,
          first ← getitem_h3 first_level;
          setitem_h3 h3_lvl (λ r,
            (λ first_val, h3_to_parent first_val h3_lvl) <$> first r))
    end);;
  mret df.

(** ** Stage 2: get_h3_ids_by_point_count

    [df[df_slice][h3_col]] is aligned on the index when it is assigned, so
    the row [r] receives its own [h3_col r].  [h3_id_lst] holds no NaN:
    [value_counts] leaves NaN out. *)

Definition get_h3_ids_by_point_count (df : ref) (min_count : Z) : M ref :=
  on_ref df (
    h3_lvl_lst ← sort ∘ _get_h3_range_lst_from_df <$> get;
    for_ h3_lvl_lst (λ h3_lvl,
      h3_col ← getitem_h3 h3_lvl;
      h3_id_cnt ← value_counts <$> values h3_col;
      let h3_id_lst := (filter (λ p, min_count < Z.of_nat p.2)%Z h3_id_cnt).*1 in
      let df_slice r := isin (Some <$> h3_id_lst) (h3_col r) in
      loc_setitem h3_id_col set_h3_id df_slice h3_col;;
      loc_setitem_scalar h3_lvl_col set_h3_lvl df_slice h3_lvl;;
      loc_setitem_scalar h3_lvl_orig_col set_h3_orig df_slice h3_lvl);;
    dropna [h3_id_col; h3_lvl_col]);;
  mret df.

(** ** Stage 3: remove_overlapping_h3_ids

    [h3_lvl - 1] below level 0 is -1, and ['h3_-1'] names no column. *)

Definition remove_overlapping_h3_ids (df : ref) : M ref :=
  on_ref df (
    h3_lvl_lst ← sort_reverse ∘ _get_h3_range_lst_from_df <$> get;
    h3_id_lst ← unique <$> (getitem_h3_id ≫= values);
    for_ (removelast h3_lvl_lst) (λ h3_lvl,
      match h3_lvl with
      | 0 => raise KeyError
      | S nxt_h3_lvl =>
          nxt_h3_col ← getitem_h3 nxt_h3_lvl;
          let df_slice r := isin h3_id_lst (nxt_h3_col r) in
          loc_setitem h3_id_col set_h3_id df_slice nxt_h3_col;;
          loc_setitem_scalar h3_lvl_col set_h3_lvl df_slice nxt_h3_lvl
      end));;
  mret df.

(** ** Stage 4: get_h3_hexbins_with_counts *)

Definition get_esri_geometry_for_h3_id (h3_id : Cell) : Polygon :=
  let coord_lst := [h3_to_geo_boundary h3_id] in
  mkPolygon coord_lst 4326.

Definition get_h3_hex_dataframe_from_h3_id_lst (h3_id_lst : list Cell)
    : list (Cell * Polygon) :=
  let geom_lst := get_esri_geometry_for_h3_id <$> h3_id_lst in
  zip h3_id_lst geom_lst.

(** [df[[h3_id_col, h3_lvl_col]]] *)
Definition getitem_id_lvl : St (Row → option Cell * option nat) := λ d,
  if decide ([h3_id_col; h3_lvl_col] ⊆ columns d)
  then (Ok (λ r, (h3_id r, h3_lvl r)), d)
  else (Raise KeyError, d).

(** The output table is a new object that nothing else refers to; it is
    returned by value.  [h3_id_col] is the default argument. *)
Definition get_h3_hexbins_with_counts (df : ref) : M (list HexRow) :=
  on_ref df (
    h3_id_cnt ← value_counts <$> (getitem_h3_id ≫= values);
    let hex_df := get_h3_hex_dataframe_from_h3_id_lst h3_id_cnt.*1 in
    level_df ← drop_duplicates <$> (getitem_id_lvl ≫= values);
    let out_df :=
      join (λ x, Some x.1.1) (join fst hex_df h3_id_cnt) level_df in
    mret ((λ x, mkHexRow x.1.1.1 x.1.1.2 x.1.2 (mjoin x.2)) <$> out_df)).

(** ** The pipeline *)

Definition get_nonoverlapping_h3_hexbins_for_points (sdf : ref)
    (h3_min h3_max : nat) (min_count : Z) : M (list HexRow) :=
  df ← add_h3_ids_to_points sdf h3_max h3_min;
  cnt_df ← get_h3_ids_by_point_count df min_count;
  cln_cnt_df ← remove_overlapping_h3_ids cnt_df;
  out_df ← get_h3_hexbins_with_counts cln_cnt_df;
  mret out_df.

(** ** Area of interest

    Of a row of the area table only the geometry is read.  The feature set
    and its GeoJSON text carry the rings of each geometry to [h3.polyfill]
    unchanged. *)

(** [df.spatial.to_featureset()] followed by the [features] of its
    GeoJSON text: the geometry of each row.  On a frame without rows the
    conversion raises KeyError. *)
Definition to_featureset (df : list AoiRow) : result (list Polygon) :=
  if decide (df = []) then Raise KeyError else Ok (aoi_SHAPE <$> df).

Definition _preprocess_sdf_for_h3 (orig_df : list AoiRow) : list AoiRow :=
  orig_df ≫= λ row,
    let geom := aoi_SHAPE row in
    (λ ring, mkAoiRow (mkPolygon [ring] (spatialReference geom))) <$> rings geom.

Definition get_unique_h3_ids_for_aoi (orig_df : list AoiRow) (hex_level : nat)
    : result (list Cell) :=
  let expl_df := _preprocess_sdf_for_h3 orig_df in
  match to_featureset expl_df with
  | Raise e => Raise e
  | Ok fs_expl =>
      let geojson_feat_lst := fs_expl in
      let _get_h3_ids geojson_aoi := polyfill (rings geojson_aoi) hex_level in
      let h3_ids_lst := _get_h3_ids <$> geojson_feat_lst in
      let h3_ids := drop_duplicates (concat h3_ids_lst) in
      if decide (length h3_ids = 0) then Raise (Exception_too_coarse hex_level)
      else Ok h3_ids
  end.

Definition get_h3_hex_for_aoi (orig_df : list AoiRow) (hex_level : nat)
    : result (list (Cell * Polygon)) :=
  match get_unique_h3_ids_for_aoi orig_df hex_level with
  | Ok h3_ids => Ok (get_h3_hex_dataframe_from_h3_id_lst h3_ids)
  | Raise e => Raise e
  end.

End h3_arcgis.

(** ** A grid for concrete runs

    Cell ids are digit paths from the coarsest cell down, as in an H3 index:
    the resolution is the number of digits and the parent at a coarser
    resolution is the prefix of that length.  A coordinate is the digit
    path of the point; a ring lists the digit paths it covers. *)
Definition digit_grid : H3Lib := {|
  Cell := list nat;
  coord := list nat;
  ring := list (list nat);
  geo_to_h3 lat lng res := take res (lat ++ replicate res 0);
  h3_to_parent c res := take res c;
  h3_get_resolution c := length c;
  h3_to_geo_boundary c := [c];
  polyfill rs res := take res <$> filter (λ c, res ≤ length c) (concat rs);
|}.

(** A grid in which the cell of a point at a coarse level is not the parent
    of its cell at a fine level; H3 nests the cells of a point only
    approximately.  The cells at the levels up to 2 follow the first
    coordinate, the finer ones the second. *)
Definition skew_grid : H3Lib := {|
  Cell := list nat;
  coord := list nat;
  ring := list (list nat);
  geo_to_h3 lat lng res :=
    take res ((if decide (res ≤ 2) then lng else lat) ++ replicate res 0);
  h3_to_parent c res := take res c;
  h3_get_resolution c := length c;
  h3_to_geo_boundary c := [c];
  polyfill rs res := take res <$> filter (λ c, res ≤ length c) (concat rs);
|}.

(** A point table as the caller builds it: geometries only. *)
Definition points_df `{H3Lib} (pts : list (coord * coord)) : DataFrame :=
  mkDataFrame [] ((λ p, mkRow (mkGeometry p) ∅ None None None) <$> pts).

(** ** Vocabulary of the properties

    These definitions are not code of the module: they name what the
    statements below talk about. *)

Section vocabulary.
Context `{H3Lib}.

(** The number of points of [d] whose cell at level [L] is [c]. *)
Definition cell_count (d : DataFrame) (L : nat) (c : Cell) : nat :=
  length (filter (λ r, h3 r !! L = Some c) (rows d)).

(** The cell of [r] at level [L] holds more than [min_count] points of [d]. *)
Definition passes (min_count : Z) (d : DataFrame) (L : nat) (r : Row) : bool :=
  match h3 r !! L with
  | Some c => bool_decide (min_count < Z.of_nat (cell_count d L c))%Z
  | None => false
  end.

(** The finest level of [d] at which the cell of [r] passes. *)
Definition finest_passing (min_count : Z) (d : DataFrame) (r : Row) : option nat :=
  list.last (filter (λ L, passes min_count d L r) (sort (_get_h3_range_lst_from_df d))).

(** The table has exactly the level columns [lo..hi]. *)
Definition level_range (lo hi : nat) (d : DataFrame) : Prop :=
  NoDup (_get_h3_range_lst_from_df d) ∧
  ∀ L, L ∈ _get_h3_range_lst_from_df d ↔ lo ≤ L ≤ hi.

(** [a] is an ancestor of [b] in the grid, and not [b] itself. *)
Definition strict_ancestor (a b : Cell) : Prop :=
  h3_get_resolution a < h3_get_resolution b ∧
  h3_to_parent b (h3_get_resolution a) = a.

(** *** The stages, row by row *)

(** The cell of the point of [r] at the finest level [hi] *)
Definition point_cell (hi : nat) (r : Row) : Cell :=
  geo_to_h3 (centroid (SHAPE r)).2 (centroid (SHAPE r)).1 hi.

(** One pass of the tagging loop on a row, and the row and the column
    names once levels [lo..hi] are tagged *)
Definition tag_row (hi : nat) (r : Row) (L : nat) : Row :=
  set_h3 L ((λ first_val, h3_to_parent first_val L) <$> h3 r !! hi) r.

Definition tagged_row (lo hi : nat) (r : Row) : Row :=
  foldl (tag_row hi)
    (set_h3 hi (Some (geo_to_h3 (centroid (SHAPE r)).2 (centroid (SHAPE r)).1 hi)) r)
    (reverse (seq lo (hi - lo))).

Definition tagged_columns (lo hi : nat) (cols : list column) : list column :=
  foldl (λ cols L, add_column (H3 L) cols) (add_column (H3 hi) cols)
    (reverse (seq lo (hi - lo))).

(** The level columns [lo..hi] of a row hold the cell of the point at
    level [hi] and its parents. *)
Definition nested (lo hi : nat) (r : Row) : Prop :=
  ∃ c, h3_get_resolution c = hi ∧ h3 r !! hi = Some c ∧
       ∀ L, lo ≤ L < hi → h3 r !! L = Some (h3_to_parent c L).

(** An assigned row as the threshold stage leaves it: nested level columns
    and the pair (cell, level) of one of them. *)
Definition consistent (lo hi : nat) (r : Row) : Prop :=
  nested lo hi r ∧
  ∃ L, lo ≤ L ≤ hi ∧ h3_id r = h3 r !! L ∧ h3_lvl r = Some L.

(** The output table computed from the rows of the assigned table *)
Definition hexbins_of (d : DataFrame) : list HexRow :=
  let h3_id_cnt := value_counts (h3_id <$> rows d) in
  let hex_df := get_h3_hex_dataframe_from_h3_id_lst h3_id_cnt.*1 in
  let level_df := drop_duplicates ((λ r, (h3_id r, h3_lvl r)) <$> rows d) in
  (λ x, mkHexRow x.1.1.1 x.1.1.2 x.1.2 (mjoin x.2)) <$>
    join (λ x, Some x.1.1) (join fst hex_df h3_id_cnt) level_df.

(** The row assigned its cell at level [L] *)
Definition assigned_row (L : nat) (r : Row) : Row :=
  mkRow (SHAPE r) (h3 r) (h3 r !! L) (Some L) (Some L).

(** The row once the three assignment columns exist: a column that was
    missing holds NaN. *)
Definition blank_missing (cols : list column) (r : Row) : Row :=
  mkRow (SHAPE r) (h3 r)
    (if bool_decide (H3_ID ∈ cols) then h3_id r else None)
    (if bool_decide (H3_LVL ∈ cols) then h3_lvl r else None)
    (if bool_decide (H3_ORIG ∈ cols) then h3_orig r else None).

Definition add_assignment_columns (cols : list column) : list column :=
  add_column H3_ORIG (add_column H3_LVL (add_column H3_ID cols)).

(** The row after the threshold loop has visited the levels [l] *)
Definition threshold_row (min_count : Z) (d : DataFrame) (l : list nat) (r : Row) : Row :=
  match list.last (filter (λ L, passes min_count d L r) l) with
  | Some L => assigned_row L r
  | None => if decide (l = []) then r else blank_missing (columns d) r
  end.

(** The row after the overlap loop has compared the levels [l] with the
    snapshot [ids] *)
Definition promoted_row (ids : list (option Cell)) (l : list nat) (r : Row) : Row :=
  match list.last (filter (λ L, h3 r !! L ∈ ids) l) with
  | Some L => mkRow (SHAPE r) (h3 r) (h3 r !! L) (Some L) (h3_orig r)
  | None => r
  end.

(** One pass of the threshold loop, as an update of the table *)
Definition threshold_step (min_count : Z) (d : DataFrame) (L : nat) : DataFrame :=
  let h3_col r := h3 r !! L in
  let h3_id_lst :=
    (filter (λ p, min_count < Z.of_nat p.2)%Z (value_counts (h3_col <$> rows d))).*1 in
  let df_slice r := isin (Some <$> h3_id_lst) (h3_col r) in
  loc_set h3_lvl_orig_col set_h3_orig df_slice (λ _, Some L)
    (loc_set h3_lvl_col set_h3_lvl df_slice (λ _, Some L)
       (loc_set h3_id_col set_h3_id df_slice h3_col d)).

(** One pass of the overlap loop for the coarser level [L] *)
Definition promote_step (ids : list (option Cell)) (d : DataFrame) (L : nat) : DataFrame :=
  let nxt_h3_col r := h3 r !! L in
  let df_slice r := isin ids (nxt_h3_col r) in
  loc_set h3_lvl_col set_h3_lvl df_slice (λ _, Some L)
    (loc_set h3_id_col set_h3_id df_slice nxt_h3_col d).

(** *** The stages, table by table *)

Definition tagged (lo hi : nat) (d : DataFrame) : DataFrame :=
  mkDataFrame (tagged_columns lo hi (columns d)) (tagged_row lo hi <$> rows d).

Definition assigned (min_count : Z) (d : DataFrame) : DataFrame :=
  mkDataFrame (add_assignment_columns (columns d))
    (filter (λ r, Forall (λ c, isna c r = false) [h3_id_col; h3_lvl_col])
       (threshold_row min_count d (sort (_get_h3_range_lst_from_df d)) <$> rows d)).

Definition promoted (lo hi : nat) (d : DataFrame) : DataFrame :=
  mkDataFrame (columns d)
    (promoted_row (unique (h3_id <$> rows d)) (reverse (seq lo (hi - lo))) <$> rows d).

(** The row of the tagged table [d] after threshold assignment and overlap
    resolution *)
Definition final_row_of (min_count : Z) (lo hi : nat) (d : DataFrame) (r : Row) : Row :=
  promoted_row (unique (h3_id <$> rows (assigned min_count d)))
    (reverse (seq lo (hi - lo)))
    (threshold_row min_count d (sort (_get_h3_range_lst_from_df d)) r).

(** The cells covering the area of interest: the cells of every
    single-ring piece of every row *)
Definition covering_cells (orig_df : list AoiRow) (hex_level : nat) : list Cell :=
  orig_df ≫= λ row, rings (aoi_SHAPE row) ≫= λ ring, polyfill [ring] hex_level.

End vocabulary.

(** Five points: two in one finest cell, a third in the same parent, a
    fourth in the same grandparent, a fifth far away. *)
Definition demo_points : @DataFrame digit_grid :=
  @points_df digit_grid
    [([], [1; 2; 3]); ([], [1; 2; 3]); ([], [1; 2; 4]); ([], [1; 3; 5]); ([], [2; 0; 0])].

(** The name the caller has for its table *)
Definition demo_ref : ref := 1%positive.

Definition demo_store : gmap ref (@DataFrame digit_grid) :=
  {[ demo_ref := demo_points ]}.

(** The same table tagged at levels 1..3, and then assigned with
    threshold 1 *)
Definition demo_tagged : @DataFrame digit_grid := tagged 1 3 demo_points.
Definition demo_assigned : @DataFrame digit_grid := assigned 1 demo_tagged.

(** The store after each of the first two stages on [demo_points] *)
Definition demo_store_tagged : gmap ref (@DataFrame digit_grid) :=
  {[ demo_ref := demo_tagged ]}.
Definition demo_store_assigned : gmap ref (@DataFrame digit_grid) :=
  {[ demo_ref := demo_assigned ]}.

(** Scenario B: 110 points under the level-8 cell [0;0;0;0;0;0;0;0], 50 of
    them in its child 1 and 30 each in its children 2 and 3 *)
Definition scenario_B_cell : list nat := replicate 8 0.
Definition scenario_B_points : @DataFrame digit_grid :=
  @points_df digit_grid
    (replicate 50 ([], scenario_B_cell ++ [1]) ++
     replicate 30 ([], scenario_B_cell ++ [2]) ++
     replicate 30 ([], scenario_B_cell ++ [3])).
Definition scenario_B_store : gmap ref (@DataFrame digit_grid) :=
  {[ demo_ref := scenario_B_points ]}.

(** The table and the store after the pipeline has run on [demo_points]
    with levels 1..3 and threshold 1: the first four points, all in the
    cell [1] at level 1 *)
Definition demo_promoted : @DataFrame digit_grid := promoted 1 3 demo_assigned.
Definition demo_store_promoted : gmap ref (@DataFrame digit_grid) :=
  {[ demo_ref := demo_promoted ]}.

(** Its first row *)
Definition demo_promoted_row : @Row digit_grid :=
  @mkRow digit_grid (@mkGeometry digit_grid ([], [1; 2; 3]))
    {[ 1 := [1]; 2 := [1; 2]; 3 := [1; 2; 3] ]} (Some [1]) (Some 1) (Some 3).

(** A store with a second table next to the table of the caller *)
Definition demo_other_ref : ref := 2%positive.
Definition demo_other : @DataFrame digit_grid :=
  @points_df digit_grid [([], [7; 7; 7])].
Definition demo_two_tables : gmap ref (@DataFrame digit_grid) :=
  {[ demo_ref := demo_points; demo_other_ref := demo_other ]}.

(** Four points: two in one cell at level 3, two alone in theirs.  In the
    skewed grid the last two share their cell at the levels 1 and 2. *)
Definition spread_pts : list (list nat * list nat) :=
  [([2; 2; 2], [1; 1; 1]); ([2; 2; 2], [1; 1; 1]);
   ([1; 1; 0], [3; 3; 3]); ([1; 1; 0], [4; 4; 4])].

(** In the plain grid, tagged at levels 1..3 and assigned with threshold 0:
    three cells at level 3 *)
Definition spread_assigned : @DataFrame digit_grid :=
  assigned 0 (tagged 1 3 (@points_df digit_grid spread_pts)).
Definition spread_store_assigned : gmap ref (@DataFrame digit_grid) :=
  {[ demo_ref := spread_assigned ]}.

(** In the skewed grid: the table after a first call of the pipeline with
    levels 1..3 and threshold 0, and that table in the second call, with
    levels 1..2 and threshold 1, as it enters overlap resolution.  The
    column of level 3 is the one the first call wrote. *)
Definition skew_points : @DataFrame skew_grid := @points_df skew_grid spread_pts.
Definition skew_store : gmap ref (@DataFrame skew_grid) :=
  {[ demo_ref := skew_points ]}.
Definition skew_first_call : @DataFrame skew_grid :=
  promoted 1 3 (assigned 0 (tagged 1 3 skew_points)).
Definition skew_second_call : @DataFrame skew_grid :=
  assigned 1 (tagged 1 2 skew_first_call).
Definition skew_store_second_call : gmap ref (@DataFrame skew_grid) :=
  {[ demo_ref := skew_second_call ]}.

(** Two of its rows: one holds a cell of level 3, the other the parent of
    that cell *)
Definition skew_fine_row : @Row skew_grid :=
  @mkRow skew_grid (@mkGeometry skew_grid ([2; 2; 2], [1; 1; 1]))
    {[ 1 := [2]; 2 := [2; 2]; 3 := [1; 1; 1] ]} (Some [1; 1; 1]) (Some 3) (Some 3).
Definition skew_coarse_row : @Row skew_grid :=
  @mkRow skew_grid (@mkGeometry skew_grid ([1; 1; 0], [3; 3; 3]))
    {[ 1 := [1]; 2 := [1; 1]; 3 := [3; 3; 3] ]} (Some [1; 1]) (Some 2) (Some 2).

(** A point table without points *)
Definition no_points : @DataFrame digit_grid := @points_df digit_grid [].
Definition no_points_store : gmap ref (@DataFrame digit_grid) :=
  {[ demo_ref := no_points ]}.

(** * Properties *)

(** ** The state monad *)

Section monad.
Context {S : Type}.
Implicit Types s : S.

Lemma run_bind {A B} (m : state S A) (k : A → state S B) s :
  (m ≫= k) s = match m s with
               | (Ok a, s') => k a s'
               | (Raise e, s') => (Raise e, s')
               end.
Proof. reflexivity. Qed.

Lemma run_bind_ok {A B} (m : state S A) (k : A → state S B) s a s' :
  m s = (Ok a, s') → (m ≫= k) s = k a s'.
Proof. intros Hm. by rewrite run_bind, Hm. Qed.

Lemma run_fmap_ok {A B} (f : A → B) (m : state S A) s a s' :
  m s = (Ok a, s') → (f <$> m) s = (Ok (f a), s').
Proof. intros Hm. unfold fmap, state_fmap. by rewrite (run_bind_ok _ _ _ _ _ Hm). Qed.

(** A loop whose body is a total update [g] on the states satisfying an
    invariant is the left fold of [g]. *)
Lemma for__foldl {A} (I : S → Prop) (g : S → A → S) (l : list A)
    (body : A → state S unit) s :
  (∀ x s, x ∈ l → I s → body x s = (Ok (), g s x) ∧ I (g s x)) →
  I s →
  for_ l body s = (Ok (), foldl g s l) ∧ I (foldl g s l).
Proof.
  revert s. induction l as [|x l IH]; intros s Hbody Hs; simpl; [done|].
  destruct (Hbody x s) as [Hx HI]; [left|done|].
  rewrite run_bind, Hx. apply IH; [|done].
  intros y s' Hy. apply Hbody. by right.
Qed.

End monad.

(** ** Lists *)

Section lists.
Context {V : Type} `{EqDecision V}.
Implicit Types l : list V.

Lemma elem_of_drop_duplicates l x : x ∈ drop_duplicates l ↔ x ∈ l.
Proof.
  induction l as [|y l IH]; simpl; [done|].
  rewrite !elem_of_cons, list_elem_of_filter, IH.
  destruct (decide (x = y)); tauto.
Qed.

Lemma NoDup_drop_duplicates l : NoDup (drop_duplicates l).
Proof.
  induction l as [|y l IH]; simpl; constructor.
  - rewrite list_elem_of_filter. by intros [? _].
  - by apply list.NoDup_filter.
Qed.

Lemma drop_duplicates_nil_inv l : drop_duplicates l = [] → l = [].
Proof. by destruct l. Qed.

Lemma drop_duplicates_const l x :
  l ≠ [] → (∀ y, y ∈ l → y = x) → drop_duplicates l = [x].
Proof.
  induction l as [|y l IH]; intros Hne Hall; [done|]. simpl.
  rewrite (Hall y) by left. f_equal.
  destruct l as [|z l]; [done|].
  rewrite IH; [|done|by intros; apply Hall; right].
  rewrite filter_cons_False, filter_nil; [done|]. by intros [].
Qed.

Lemma last_filter_snoc (P : V → Prop) `{∀ x, Decision (P x)} l x :
  list.last (filter P (l ++ [x])) = if decide (P x) then Some x else list.last (filter P l).
Proof.
  rewrite list.filter_app, filter_cons, filter_nil.
  destruct (decide (P x)); [by rewrite last_snoc|by rewrite app_nil_r].
Qed.

Lemma last_filter_None (P : V → Prop) `{∀ x, Decision (P x)} l :
  list.last (filter P l) = None ↔ ∀ x, x ∈ l → ¬ P x.
Proof.
  rewrite last_None. split.
  - intros Hnil x Hx HP. assert (x ∈ filter P l) as Hin by by apply list_elem_of_filter.
    rewrite Hnil in Hin. by apply elem_of_nil in Hin.
  - intros Hall. destruct (filter P l) as [|x k] eqn:Hf; [done|].
    assert (x ∈ filter P l) as [HP Hin]%list_elem_of_filter by (rewrite Hf; left).
    by destruct (Hall x).
Qed.

Lemma head_filter_None (P : V → Prop) `{∀ x, Decision (P x)} l :
  list.head (filter P l) = None ↔ ∀ x, x ∈ l → ¬ P x.
Proof.
  rewrite head_None. split.
  - intros Hnil x Hx HP. assert (x ∈ filter P l) as Hin by by apply list_elem_of_filter.
    rewrite Hnil in Hin. by apply elem_of_nil in Hin.
  - intros Hall. destruct (filter P l) as [|x k] eqn:Hf; [done|].
    assert (x ∈ filter P l) as [HP Hin]%list_elem_of_filter by (rewrite Hf; left).
    by destruct (Hall x).
Qed.

End lists.

(** ** Sorting the level list *)

Lemma sort_Permutation l : sort l ≡ₚ l.
Proof. apply merge_sort_Permutation. Qed.

Lemma sort_StronglySorted l : StronglySorted (≤) (sort l).
Proof. apply (StronglySorted_merge_sort _). Qed.

Lemma elem_of_sort l x : x ∈ sort l ↔ x ∈ l.
Proof. by rewrite sort_Permutation. Qed.

(** The last element of an ascending list that satisfies [P] is the
    greatest one. *)
Lemma last_filter_sorted (P : nat → Prop) `{∀ x, Decision (P x)} l x :
  StronglySorted (≤) l →
  list.last (filter P l) = Some x →
  x ∈ l ∧ P x ∧ ∀ y, y ∈ l → P y → y ≤ x.
Proof.
  intros Hsort Hlast.
  destruct (last_filter_Some P l x Hlast) as (l1 & l2 & -> & Hl2).
  assert (x ∈ filter P (l1 ++ x :: l2)) as [HP _]%list_elem_of_filter.
  { apply last_Some_elem_of, Hlast. }
  split; [set_solver|]. split; [done|].
  intros y Hy HPy. apply elem_of_app in Hy as [Hy|Hy].
  - apply (StronglySorted_app_1_elem_of _ _ _ _ _ Hsort Hy). left.
  - apply elem_of_cons in Hy as [->|Hy]; [lia|].
    rewrite list.Forall_forall in Hl2. by destruct (Hl2 y).
Qed.

Lemma sort_reverse_range lo n l :
  NoDup l → (∀ x, x ∈ l ↔ lo ≤ x < lo + n) →
  sort_reverse l = reverse (seq lo n).
Proof.
  intros Hnd Hl.
  assert (AntiSymm (=) (flip le)) by (intros x y ??; unfold flip in *; lia).
  assert (Total (flip le)) by (intros x y; unfold flip; lia).
  apply (Sorted_unique (flip (≤))).
  - apply (Sorted_merge_sort _).
  - apply Sorted_reverse, StronglySorted_Sorted.
    clear. revert lo. induction n as [|n IH]; intros lo; simpl; constructor; [done|].
    apply list.Forall_forall. intros x [? ?]%elem_of_seq. lia.
  - unfold sort_reverse. rewrite merge_sort_Permutation, reverse_Permutation.
    apply NoDup_Permutation; [done|apply NoDup_seq|].
    intros x. rewrite Hl, elem_of_seq. lia.
Qed.

Lemma sort_reverse_seq lo n : sort_reverse (seq lo n) = reverse (seq lo n).
Proof.
  apply sort_reverse_range; [apply NoDup_seq|].
  intros x. rewrite elem_of_seq. lia.
Qed.

(** ** DataFrame primitives *)

Section primitives.
Context `{H3Lib}.
Implicit Types (d : DataFrame) (r : Row) (c : Cell) (col : column)
  (cols : list column).

Lemma elem_of_add_column col col' cols :
  col' ∈ add_column col cols ↔ col' = col ∨ col' ∈ cols.
Proof.
  unfold add_column. destruct (decide (col ∈ cols)).
  - split; [by right|]. by intros [->|?].
  - rewrite elem_of_app, list_elem_of_singleton. tauto.
Qed.

Lemma add_column_elem_of col cols : col ∈ cols → add_column col cols = cols.
Proof. intros. unfold add_column. by rewrite decide_True. Qed.

Lemma h3_levels_add_column col cols :
  h3_level_of col = None →
  omap h3_level_of (add_column col cols) = omap h3_level_of cols.
Proof.
  intros Hcol. unfold add_column. destruct (decide _); [done|].
  rewrite omap_app. simpl. rewrite Hcol. by rewrite app_nil_r.
Qed.

Lemma elem_of_h3_levels L cols : L ∈ omap h3_level_of cols ↔ H3 L ∈ cols.
Proof.
  rewrite list_elem_of_omap. split.
  - intros ([]&?&[=]). by subst.
  - intros. by exists (H3 L).
Qed.

Lemma getitem_h3_run L d :
  H3 L ∈ columns d → getitem_h3 L d = (Ok (λ r, h3 r !! L), d).
Proof. intros. unfold getitem_h3. by rewrite decide_True. Qed.

Lemma getitem_h3_id_run d :
  H3_ID ∈ columns d → getitem_h3_id d = (Ok h3_id, d).
Proof. intros. unfold getitem_h3_id. by rewrite decide_True. Qed.

Lemma loc_setitem_scalar_run {V} col (put : option V → Row → Row)
    (mask : Row → bool) (v : V) d :
  col ∈ columns d ∨ rows d ≠ [] →
  loc_setitem_scalar col put mask v d
  = (Ok (), loc_set col put mask (λ _, Some v) d).
Proof.
  intros Hok. unfold loc_setitem_scalar. rewrite decide_True; [done|].
  destruct Hok as [?|Hne]; [by left|right].
  destruct (rows d); [done|simpl; lia].
Qed.

Lemma loc_set_rows_nonempty {V} col (put : option V → Row → Row)
    (mask : Row → bool) (values : Row → option V) d :
  rows d ≠ [] → rows (loc_set col put mask values d) ≠ [].
Proof. unfold loc_set. cbn [rows]. by destruct (rows d). Qed.

(** *** value_counts *)

Lemma count_column (f : Row → option Cell) c (rs : list Row) :
  length (filter (c =.) (omap id (f <$> rs)))
  = length (filter (λ r, f r = Some c) rs).
Proof.
  induction rs as [|r rs IH]; [done|]. csimpl.
  rewrite (filter_cons (λ r, f r = Some c)).
  destruct (f r) as [c'|] eqn:Hf; simpl.
  - rewrite filter_cons. destruct (decide (c = c')) as [->|].
    + rewrite decide_True by done. simpl. by rewrite IH.
    + rewrite decide_False by congruence. done.
  - done.
Qed.

Lemma elem_of_value_counts (s : list (option Cell)) c n :
  (c, n) ∈ value_counts s ↔
  Some c ∈ s ∧ n = length (filter (c =.) (omap id s)).
Proof.
  unfold value_counts. rewrite list_elem_of_fmap. split.
  - intros (c' & [= -> ->] & Hc). split; [|done].
    apply elem_of_drop_duplicates, list_elem_of_omap in Hc as (o & Ho & Hoc).
    destruct o; simplify_eq/=. done.
  - intros [Hc ->]. exists c. split; [done|].
    apply elem_of_drop_duplicates, list_elem_of_omap. by exists (Some c).
Qed.

(** The slice computed at level [L] selects the rows whose cell passes. *)
Lemma df_slice_passes (min_count : Z) d L r :
  r ∈ rows d →
  isin (Some <$> (filter (λ p, min_count < Z.of_nat p.2)%Z
                    (value_counts ((λ r, h3 r !! L) <$> rows d))).*1)
       (h3 r !! L)
  = passes min_count d L r.
Proof.
  intros Hr. unfold isin, passes, cell_count.
  destruct (h3 r !! L) as [c|] eqn:Hc.
  - apply bool_decide_ext.
    rewrite list_elem_of_fmap. split.
    + intros (c' & [= <-] & ([c1 n] & -> & [Hn Hin]%list_elem_of_filter)%list_elem_of_fmap).
      apply elem_of_value_counts in Hin as [_ ->].
      by rewrite count_column in Hn.
    + intros Hn. exists c. split; [done|].
      apply list_elem_of_fmap. eexists (c, _). split; [done|].
      apply list_elem_of_filter. split; [|apply elem_of_value_counts; split; [|done]].
      * simpl. by rewrite count_column.
      * apply list_elem_of_fmap. by exists r.
  - apply bool_decide_eq_false. rewrite list_elem_of_fmap. by intros (?&?&?).
Qed.

End primitives.

(** ** Stage 2: the threshold loop *)

Section stage2.
Context `{H3Lib}.
Implicit Types (d : DataFrame) (r : Row) (c : Cell) (col : column)
  (cols : list column) (l : list nat).

Lemma threshold_row_h3 m d l r : h3 (threshold_row m d l r) = h3 r.
Proof. unfold threshold_row. by repeat case_match. Qed.

Lemma threshold_row_SHAPE m d l r : SHAPE (threshold_row m d l r) = SHAPE r.
Proof. unfold threshold_row. by repeat case_match. Qed.

Lemma elem_of_add_assignment_columns col cols :
  col ∈ add_assignment_columns cols ↔
  col = H3_ID ∨ col = H3_LVL ∨ col = H3_ORIG ∨ col ∈ cols.
Proof. unfold add_assignment_columns. rewrite !elem_of_add_column. tauto. Qed.

Lemma add_assignment_columns_idemp cols :
  add_assignment_columns (add_assignment_columns cols) = add_assignment_columns cols.
Proof.
  unfold add_assignment_columns at 1.
  rewrite !add_column_elem_of; [done|..];
    rewrite ?elem_of_add_column, elem_of_add_assignment_columns; tauto.
Qed.

Lemma blank_missing_id cols r :
  H3_ID ∈ cols → H3_LVL ∈ cols → H3_ORIG ∈ cols → blank_missing cols r = r.
Proof.
  intros. unfold blank_missing. rewrite !bool_decide_eq_true_2 by done. by destruct r.
Qed.

Lemma bool_decide_add_column col col' cols :
  col' ≠ col → bool_decide (col' ∈ add_column col cols) = bool_decide (col' ∈ cols).
Proof.
  intros. apply bool_decide_ext. rewrite elem_of_add_column.
  split; [by intros [?|?]|by right].
Qed.

(** Three masked writes with one mask that only reads the level columns *)
Lemma loc_set_assignment (mask : Row → bool) (ids : Row → option Cell) L cols
    (rs : list Row) :
  (∀ r v, mask (set_h3_id v r) = mask r) →
  (∀ r v, mask (set_h3_lvl v r) = mask r) →
  loc_set h3_lvl_orig_col set_h3_orig mask (λ _, Some L)
    (loc_set h3_lvl_col set_h3_lvl mask (λ _, Some L)
       (loc_set h3_id_col set_h3_id mask ids (mkDataFrame cols rs)))
  = mkDataFrame (add_assignment_columns cols)
      ((λ r, if mask r
             then mkRow (SHAPE r) (h3 r) (ids r) (Some L) (Some L)
             else blank_missing cols r) <$> rs).
Proof.
  intros Hid Hlvl. unfold loc_set. simpl. f_equal.
  rewrite <-!list_fmap_compose. apply list_fmap_ext. intros _ r _. simpl.
  unfold fill_new, blank_missing, h3_lvl_orig_col, h3_lvl_col, h3_id_col.
  rewrite !bool_decide_add_column by done.
  destruct (bool_decide (H3_ID ∈ cols)), (bool_decide (H3_LVL ∈ cols)),
    (bool_decide (H3_ORIG ∈ cols)), (mask r) eqn:Hm;
    repeat (cbv iota; rewrite ?Hid, ?Hlvl, ?Hm); try done.
  all: try by destruct r.
Qed.

Lemma threshold_step_map m d cols (f : Row → Row) L :
  (∀ r, h3 (f r) = h3 r) →
  threshold_step m (mkDataFrame cols (f <$> rows d)) L
  = mkDataFrame (add_assignment_columns cols)
      ((λ r, if passes m d L r
             then mkRow (SHAPE (f r)) (h3 r) (h3 r !! L) (Some L) (Some L)
             else blank_missing cols (f r)) <$> rows d).
Proof.
  intros Hf. unfold threshold_step. cbn [rows columns].
  assert ((λ r : Row, h3 r !! L) <$> (f <$> rows d) = (λ r : Row, h3 r !! L) <$> rows d)
    as -> by (rewrite <-list_fmap_compose; apply list_fmap_ext; intros; simpl; by rewrite Hf).
  set (mask := λ r, isin _ _).
  rewrite (loc_set_assignment mask); [|done..].
  f_equal. rewrite <-list_fmap_compose.
  apply list_fmap_ext. intros _ r Hr%list_elem_of_lookup_2. simpl.
  unfold mask. rewrite !Hf, (df_slice_passes m d L r Hr).
  destruct (passes m d L r); [by rewrite ?Hf|]. unfold blank_missing. by rewrite ?Hf.
Qed.

Lemma threshold_loop m d l :
  foldl (threshold_step m) d l
  = mkDataFrame
      (if decide (l = []) then columns d else add_assignment_columns (columns d))
      (threshold_row m d l <$> rows d).
Proof.
  induction l as [|L l IH] using rev_ind.
  - simpl. destruct d as [cols rs]. simpl. f_equal.
    rewrite <-(list_fmap_id rs) at 1. by apply list_fmap_ext.
  - rewrite foldl_snoc, IH.
    rewrite (decide_False (P := l ++ [L] = [])) by (by destruct l).
    rewrite threshold_step_map by apply threshold_row_h3.
    f_equal.
    + destruct (decide (l = [])); [done|]. apply add_assignment_columns_idemp.
    + apply list_fmap_ext. intros _ r _.
      unfold threshold_row at 3. rewrite last_filter_snoc.
      destruct (passes m d L r) eqn:Hp; simpl.
      * by rewrite threshold_row_SHAPE.
      * rewrite (decide_False (P := l ++ [L] = [])) by (by destruct l).
        unfold threshold_row.
        destruct (decide (l = [])) as [->|Hl]; [done|].
        rewrite blank_missing_id by (apply elem_of_add_assignment_columns; tauto).
        done.
Qed.


Lemma threshold_step_columns m d L col :
  col ∈ columns d → col ∈ columns (threshold_step m d L).
Proof.
  intros. unfold threshold_step, loc_set. simpl. rewrite !elem_of_add_column. tauto.
Qed.

Lemma threshold_step_rows_nonempty m d L :
  rows d ≠ [] → rows (threshold_step m d L) ≠ [].
Proof. intros. unfold threshold_step. by repeat apply loc_set_rows_nonempty. Qed.

Lemma get_h3_ids_by_point_count_run df m (σ : gmap ref DataFrame) d :
  σ !! df = Some d →
  rows d ≠ [] →
  get_h3_ids_by_point_count df m σ
  = let d' := foldl (threshold_step m) d (sort (_get_h3_range_lst_from_df d)) in
    match dropna [h3_id_col; h3_lvl_col] d' with
    | (Ok _, d'') => (Ok df, <[df := d'']> σ)
    | (Raise e, d'') => (Raise e, <[df := d'']> σ)
    end.
Proof.
  intros Hσ Hrows. unfold get_h3_ids_by_point_count.
  rewrite run_bind. unfold on_ref at 1. rewrite Hσ.
  rewrite run_bind.
  change ((sort ∘ _get_h3_range_lst_from_df <$> get) d)
    with (Ok (sort (_get_h3_range_lst_from_df d)), d).
  cbv beta iota zeta.
  edestruct (for__foldl
    (λ s, (∀ L, L ∈ sort (_get_h3_range_lst_from_df d) → H3 L ∈ columns s) ∧
          rows s ≠ [])
    (threshold_step m) (sort (_get_h3_range_lst_from_df d))) as [Hfor _];
    [| |erewrite run_bind_ok by apply Hfor].
  - intros L s HL [Hs Hne]. split;
      [|split; [by intros; apply threshold_step_columns, Hs
               |by apply threshold_step_rows_nonempty]].
    rewrite (run_bind_ok _ _ _ _ _ (getitem_h3_run L s (Hs L HL))).
    rewrite run_bind. unfold fmap at 1, state_fmap at 1. rewrite run_bind.
    unfold values at 1. cbv beta iota zeta.
    unfold mret at 1, state_ret at 1. cbv beta iota zeta.
    rewrite run_bind. unfold loc_setitem at 1, modify at 1. cbv beta iota zeta.
    rewrite run_bind.
    rewrite loc_setitem_scalar_run by (by right; apply loc_set_rows_nonempty).
    rewrite loc_setitem_scalar_run by (by right; repeat apply loc_set_rows_nonempty).
    done.
  - split; [|done]. intros L HL. rewrite elem_of_sort in HL.
    by apply elem_of_h3_levels in HL.
  - by destruct (dropna _ _) as [[[]|e] d''].
Qed.
End stage2.

(** ** Stage 3: the overlap loop *)

Section stage3.
Context `{H3Lib}.
Implicit Types (d : DataFrame) (r : Row) (c : Cell) (col : column)
  (cols : list column) (l : list nat) (ids : list (option Cell)).

Lemma promoted_row_h3 ids l r : h3 (promoted_row ids l r) = h3 r.
Proof. unfold promoted_row. by case_match. Qed.

Lemma promoted_row_SHAPE ids l r : SHAPE (promoted_row ids l r) = SHAPE r.
Proof. unfold promoted_row. by case_match. Qed.

Lemma promoted_row_h3_orig ids l r : h3_orig (promoted_row ids l r) = h3_orig r.
Proof. unfold promoted_row. by case_match. Qed.

Lemma promoted_row_snoc ids l L r :
  promoted_row ids (l ++ [L]) r
  = if decide (h3 r !! L ∈ ids)
    then mkRow (SHAPE r) (h3 r) (h3 r !! L) (Some L) (h3_orig r)
    else promoted_row ids l r.
Proof.
  unfold promoted_row. rewrite last_filter_snoc. by destruct (decide _).
Qed.

Lemma promote_step_map ids cols (f : Row → Row) L (rs : list Row) :
  (∀ r, h3 (f r) = h3 r) →
  H3_ID ∈ cols → H3_LVL ∈ cols →
  promote_step ids (mkDataFrame cols (f <$> rs)) L
  = mkDataFrame cols
      ((λ r, if isin ids (h3 r !! L)
             then mkRow (SHAPE (f r)) (h3 r) (h3 r !! L) (Some L) (h3_orig (f r))
             else f r) <$> rs).
Proof.
  intros Hf Hid Hlvl. unfold promote_step, loc_set. cbn [rows columns].
  rewrite !add_column_elem_of by (rewrite ?elem_of_add_column; auto).
  f_equal. rewrite <-!list_fmap_compose. apply list_fmap_ext. intros _ r _. simpl.
  unfold fill_new, h3_lvl_col, h3_id_col.
  rewrite !bool_decide_eq_true_2 by (rewrite ?elem_of_add_column; auto).
  rewrite Hf. destruct (isin ids (h3 r !! L)) eqn:Hin; simpl; rewrite Hf, Hin; [|done].
  unfold set_h3_lvl, set_h3_id. simpl. by rewrite Hf.
Qed.

Lemma promote_loop ids d l :
  H3_ID ∈ columns d → H3_LVL ∈ columns d →
  foldl (promote_step ids) d l
  = mkDataFrame (columns d) (promoted_row ids l <$> rows d).
Proof.
  intros Hid Hlvl. induction l as [|L l IH] using rev_ind.
  - simpl. destruct d as [cols rs]. simpl. f_equal.
    rewrite <-(list_fmap_id rs) at 1. by apply list_fmap_ext.
  - rewrite foldl_snoc, IH.
    rewrite promote_step_map by (done || apply promoted_row_h3).
    f_equal. apply list_fmap_ext. intros _ r _.
    rewrite promoted_row_snoc.
    unfold isin. destruct (decide (h3 r !! L ∈ ids)) as [Hin|Hin].
    + rewrite bool_decide_eq_true_2 by done.
      by rewrite promoted_row_SHAPE, promoted_row_h3_orig.
    + rewrite bool_decide_eq_false_2 by done. done.
Qed.

Lemma promote_step_columns ids d L col :
  col ∈ columns d → col ∈ columns (promote_step ids d L).
Proof.
  intros. unfold promote_step, loc_set. simpl. rewrite !elem_of_add_column. tauto.
Qed.

Lemma for__fmap {S A B} (f : A → B) (l : list A) (body : B → state S unit) :
  for_ (f <$> l) body = for_ l (body ∘ f).
Proof. induction l as [|x l IH]; [done|]. csimpl. by rewrite IH. Qed.

Lemma level_range_sort_reverse lo hi d :
  lo ≤ hi → level_range lo hi d →
  removelast (sort_reverse (_get_h3_range_lst_from_df d))
  = S <$> reverse (seq lo (hi - lo)).
Proof.
  intros Hle [Hnd Hl].
  rewrite (sort_reverse_range lo (S (hi - lo))) by (done || intros x; rewrite Hl; lia).
  simpl. rewrite reverse_cons, removelast_last.
  by rewrite <-fmap_S_seq, fmap_reverse.
Qed.

Lemma remove_overlapping_h3_ids_run df (σ : gmap ref DataFrame) d lo hi :
  σ !! df = Some d →
  lo ≤ hi → level_range lo hi d →
  H3_ID ∈ columns d → H3_LVL ∈ columns d →
  remove_overlapping_h3_ids df σ
  = (Ok df, <[df := foldl (promote_step (unique (h3_id <$> rows d))) d
                      (reverse (seq lo (hi - lo)))]> σ).
Proof.
  intros Hσ Hle Hrange Hid Hlvl. unfold remove_overlapping_h3_ids.
  rewrite run_bind. unfold on_ref at 1. rewrite Hσ.
  rewrite run_bind.
  change ((sort_reverse ∘ _get_h3_range_lst_from_df <$> get) d)
    with (Ok (sort_reverse (_get_h3_range_lst_from_df d)), d).
  cbv beta iota zeta.
  rewrite (level_range_sort_reverse lo hi) by done.
  rewrite run_bind.
  assert ((unique <$> (getitem_h3_id ≫= values)) d
          = (Ok (unique (h3_id <$> rows d)), d)) as ->.
  { apply run_fmap_ok. by rewrite (run_bind_ok _ _ _ _ _ (getitem_h3_id_run d Hid)). }
  rewrite for__fmap.
  edestruct (for__foldl
    (λ s, (∀ L, lo ≤ L ≤ hi → H3 L ∈ columns s) ∧ H3_LVL ∈ columns s)
    (promote_step (unique (h3_id <$> rows d))) (reverse (seq lo (hi - lo)))) as [-> _];
    [| |done].
  - intros L s HL [Hs HsL]. split;
      [|split; [by intros; apply promote_step_columns, Hs
               |by apply promote_step_columns]].
    rewrite elem_of_reverse, elem_of_seq in HL. simpl.
    rewrite (run_bind_ok _ _ _ _ _ (getitem_h3_run L s (Hs L ltac:(lia)))).
    rewrite run_bind. unfold loc_setitem at 1, modify at 1. cbv beta iota zeta.
    rewrite loc_setitem_scalar_run; [done|].
    left. unfold loc_set. cbn [columns]. rewrite elem_of_add_column. by right.
  - split; [|done]. intros L HL. apply elem_of_h3_levels, Hrange. done.
Qed.

End stage3.

(** ** Stage 1: tagging *)

Section stage1.
Context `{H3Lib}.
Implicit Types (d : DataFrame) (r : Row) (c : Cell) (col : column)
  (cols : list column) (l : list nat).

Lemma tag_loop hi d l :
  foldl (λ d L, set_column_h3 L (λ r, (λ c, h3_to_parent c L) <$> h3 r !! hi) d) d l
  = mkDataFrame (foldl (λ cols L, add_column (H3 L) cols) (columns d) l)
      ((λ r, foldl (tag_row hi) r l) <$> rows d).
Proof.
  revert d. induction l as [|L l IH]; intros d; simpl.
  - destruct d as [cols rs]. simpl. f_equal.
    rewrite <-(list_fmap_id rs) at 1. by apply list_fmap_ext.
  - rewrite IH. unfold set_column_h3. simpl. f_equal.
    by rewrite <-list_fmap_compose.
Qed.

Lemma range_lst_sort_reverse lo hi :
  lo < hi →
  sort_reverse (_get_h3_range_lst lo hi) = hi :: reverse (seq lo (hi - lo)).
Proof.
  intros. unfold _get_h3_range_lst. rewrite sort_reverse_seq.
  replace (hi + 1 - lo) with (S (hi - lo)) by lia.
  rewrite seq_S, reverse_snoc. f_equal. lia.
Qed.

Lemma add_h3_ids_to_points_run df (σ : gmap ref DataFrame) d lo hi :
  σ !! df = Some d →
  lo < hi →
  add_h3_ids_to_points df hi lo σ
  = (Ok df, <[df := mkDataFrame (tagged_columns lo hi (columns d))
                      (tagged_row lo hi <$> rows d)]> σ).
Proof.
  intros Hσ Hlt. unfold add_h3_ids_to_points.
  rewrite run_bind. unfold on_ref at 1. rewrite Hσ.
  rewrite bool_decide_eq_true_2 by done.
  rewrite range_lst_sort_reverse by done.
  rewrite run_bind. cbn [assert_]. unfold mret at 1, state_ret at 1.
  cbv beta iota zeta.
  rewrite run_bind. unfold setitem_h3 at 1, modify at 1.
  cbv beta iota zeta.
  edestruct (for__foldl
    (λ s, H3 hi ∈ columns s)
    (λ d L, set_column_h3 L (λ r, (λ c, h3_to_parent c L) <$> h3 r !! hi) d)
    (reverse (seq lo (hi - lo)))) as [-> _]; [| |].
  - intros L s HL Hs. split.
    + by rewrite (run_bind_ok _ _ _ _ _ (getitem_h3_run hi s Hs)).
    + unfold set_column_h3. simpl. rewrite elem_of_add_column. by right.
  - unfold set_column_h3. simpl. rewrite elem_of_add_column. by left.
  - rewrite tag_loop. unfold set_column_h3. simpl.
    by rewrite <-list_fmap_compose.
Qed.

(** *** What tagging leaves in a row *)

Lemma foldl_tag_row_lookup hi l r c L :
  hi ∉ l → h3 r !! hi = Some c →
  h3 (foldl (tag_row hi) r l) !! L
  = if decide (L ∈ l) then Some (h3_to_parent c L) else h3 r !! L.
Proof.
  revert r. induction l as [|L' l IH]; intros r Hhi Hc; simpl.
  - destruct (decide (L ∈ [])) as [Hin|]; [|done]. by apply elem_of_nil in Hin.
  - apply not_elem_of_cons in Hhi as [Hne Hhi].
    rewrite IH; [|done|].
    2:{ simpl. rewrite Hc. simpl. by rewrite lookup_partial_alter_ne. }
    simpl. rewrite Hc. simpl.
    destruct (decide (L ∈ l)) as [Hin|Hin].
    + by rewrite decide_True by (by right).
    + destruct (decide (L = L')) as [->|HLL'].
      * rewrite decide_True by left. by rewrite lookup_partial_alter_eq.
      * rewrite decide_False by (rewrite elem_of_cons; tauto).
        by rewrite lookup_partial_alter_ne.
Qed.

Lemma tagged_row_lookup lo hi r L :
  h3 (tagged_row lo hi r) !! L
  = if decide (L = hi) then Some (point_cell hi r)
    else if decide (lo ≤ L < hi) then Some (h3_to_parent (point_cell hi r) L)
    else h3 r !! L.
Proof.
  unfold tagged_row.
  rewrite (foldl_tag_row_lookup hi _ _ (point_cell hi r)).
  - destruct (decide (L ∈ _)) as [Hin|Hin];
      rewrite elem_of_reverse, elem_of_seq in Hin.
    + rewrite decide_False by lia. by rewrite decide_True by lia.
    + destruct (decide (L = hi)) as [->|].
      * simpl. by rewrite lookup_partial_alter_eq.
      * rewrite decide_False by lia. simpl. by rewrite lookup_partial_alter_ne.
  - rewrite elem_of_reverse, elem_of_seq. lia.
  - simpl. by rewrite lookup_partial_alter_eq.
Qed.

End stage1.

(** ** Stage 4: the output table *)

Section joins.
Context {A K V : Type} `{EqDecision K}.

Lemma elem_of_join (key : A → K) (left : list A) (right : list (K * V)) x :
  x ∈ join key left right →
  x.1 ∈ left ∧
  ((x.2 = None ∧ ∀ p, p ∈ right → p.1 ≠ key x.1) ∨
   (∃ p, p ∈ right ∧ p.1 = key x.1 ∧ x.2 = Some p.2)).
Proof.
  unfold join. rewrite list_elem_of_bind. intros (a & Hx & Ha).
  destruct (filter _ right) as [|p ps] eqn:Hf.
  - apply list_elem_of_singleton in Hx as ->. split; [done|]. left. split; [done|].
    intros p Hp Hkey. assert (p ∈ filter (λ p, p.1 = key a) right) as Hin
      by by apply list_elem_of_filter.
    rewrite Hf in Hin. by apply elem_of_nil in Hin.
  - apply list_elem_of_fmap in Hx as (q & -> & Hq). split; [done|]. right.
    rewrite <-Hf in Hq. apply list_elem_of_filter in Hq as [Hkey Hq].
    by exists q.
Qed.

Lemma zip_fmap_diag {B} (f : A → B) (l : list A) :
  zip l (f <$> l) = (λ x, (x, f x)) <$> l.
Proof. induction l as [|x l IH]; [done|]. csimpl. by rewrite IH. Qed.

End joins.

Section stage4.
Context `{H3Lib}.
Implicit Types (d : DataFrame) (r : Row) (c : Cell) (col : column)
  (cols : list column) (l : list nat).

Lemma get_h3_hexbins_with_counts_run df (σ : gmap ref DataFrame) d :
  σ !! df = Some d →
  H3_ID ∈ columns d → H3_LVL ∈ columns d →
  get_h3_hexbins_with_counts df σ = (Ok (hexbins_of d), σ).
Proof.
  intros Hσ Hid Hlvl. unfold get_h3_hexbins_with_counts, on_ref. rewrite Hσ.
  rewrite run_bind.
  assert ((value_counts <$> (getitem_h3_id ≫= values)) d
          = (Ok (value_counts (h3_id <$> rows d)), d)) as ->.
  { apply run_fmap_ok. by rewrite (run_bind_ok _ _ _ _ _ (getitem_h3_id_run d Hid)). }
  rewrite run_bind.
  assert ((drop_duplicates <$> (getitem_id_lvl ≫= values)) d
          = (Ok (drop_duplicates ((λ r, (h3_id r, h3_lvl r)) <$> rows d)), d)) as ->.
  { apply run_fmap_ok. unfold getitem_id_lvl. rewrite run_bind.
    rewrite decide_True; [done|].
    intros col. rewrite !elem_of_cons. intros [->|[->|[]%elem_of_nil]]; done. }
  unfold mret, state_ret. by rewrite insert_id.
Qed.

Lemma elem_of_hexbins_of d rec :
  rec ∈ hexbins_of d →
  hex_SHAPE rec = get_esri_geometry_for_h3_id (hex_h3_id rec) ∧
  hex_count rec
  = Some (length (filter (λ r, h3_id r = Some (hex_h3_id rec)) (rows d))) ∧
  ∃ r, r ∈ rows d ∧ h3_id r = Some (hex_h3_id rec) ∧ hex_h3_lvl rec = h3_lvl r.
Proof.
  unfold hexbins_of. intros (x & -> & Hx)%list_elem_of_fmap. simpl.
  apply elem_of_join in Hx as [Hy Hlvl].
  apply elem_of_join in Hy as [Ha Hcnt].
  unfold get_h3_hex_dataframe_from_h3_id_lst in Ha.
  rewrite zip_fmap_diag in Ha.
  apply list_elem_of_fmap in Ha as (c & Hc & Hin).
  apply list_elem_of_fmap in Hin as ([c' n] & Hcc & Hin). simpl in Hcc. subst c'.
  pose proof Hin as [Hcol _]%elem_of_value_counts.
  apply list_elem_of_fmap in Hcol as (r & Hr & Hrin).
  rewrite Hc in *. simpl in *. split; [done|]. split.
  - destruct Hcnt as [[_ Hno]|(p & Hp & Hkey & ->)].
    + by destruct (Hno _ Hin).
    + destruct p as [c' n']. simpl in *. subst c'.
      apply elem_of_value_counts in Hp as [_ ->]. by rewrite count_column.
  - destruct Hlvl as [[_ Hno]|(p & Hp & Hkey & ->)].
    + destruct (Hno (h3_id r, h3_lvl r)); [|done].
      apply elem_of_drop_duplicates, list_elem_of_fmap. by exists r.
    + apply elem_of_drop_duplicates, list_elem_of_fmap in Hp as (r' & -> & Hr').
      simpl in *. by exists r'.
Qed.

Lemma omap_id_replicate n c : omap id (replicate n (Some c)) = replicate n c.
Proof. induction n as [|n IH]; [done|]. simpl. f_equal. exact IH. Qed.

Lemma filter_eq_replicate n c : filter (eq c) (replicate n c) = replicate n c.
Proof.
  induction n as [|n IH]; [done|]. simpl.
  rewrite filter_cons, decide_True by done. by rewrite IH.
Qed.

Lemma hexbins_of_const d c L :
  rows d ≠ [] →
  (∀ r, r ∈ rows d → h3_id r = Some c ∧ h3_lvl r = Some L) →
  hexbins_of d
  = [mkHexRow c (get_esri_geometry_for_h3_id c) (Some (length (rows d))) (Some L)].
Proof.
  intros Hne Hall. unfold hexbins_of, value_counts.
  assert (h3_id <$> rows d = replicate (length (rows d)) (Some c)) as Hids.
  { symmetry. apply replicate_as_elem_of. split; [by rewrite length_fmap|].
    intros y (r & -> & Hr)%list_elem_of_fmap. by destruct (Hall r Hr) as [-> _]. }
  assert ((λ r, (h3_id r, h3_lvl r)) <$> rows d
          = replicate (length (rows d)) (Some c, Some L)) as ->.
  { symmetry. apply replicate_as_elem_of. split; [by rewrite length_fmap|].
    intros y (r & -> & Hr)%list_elem_of_fmap. by destruct (Hall r Hr) as [-> ->]. }
  rewrite Hids.
  rewrite omap_id_replicate.
  assert (length (rows d) ≠ 0) as Hlen by (by destruct (rows d)).
  rewrite (drop_duplicates_const _ c),
    (drop_duplicates_const _ (Some c, Some L));
    [|by destruct (length (rows d))|by intros ? [-> _]%elem_of_replicate
     |by destruct (length (rows d))|by intros ? [-> _]%elem_of_replicate].
  unfold get_h3_hex_dataframe_from_h3_id_lst, join. csimpl.
  rewrite filter_eq_replicate, length_replicate.
  rewrite !filter_cons, !filter_nil. simpl.
  rewrite decide_True by done. csimpl.
  rewrite filter_cons, filter_nil. simpl.
  rewrite decide_True by done. done.
Qed.

End stage4.

(** ** What each stage leaves in the store *)

Section stage_results.
Context `{H3Lib}.
Implicit Types (d : DataFrame) (r : Row) (c : Cell) (col : column)
  (cols : list column) (l : list nat) (σ : gmap ref DataFrame).

Lemma add_h3_ids_to_points_ok df σ d lo hi :
  σ !! df = Some d → lo < hi →
  add_h3_ids_to_points df hi lo σ = (Ok df, <[df := tagged lo hi d]> σ).
Proof. apply add_h3_ids_to_points_run. Qed.

Lemma sort_nil_inv l : sort l = [] → l = [].
Proof.
  intros Hs. apply Permutation_nil_r. rewrite <-Hs. by rewrite sort_Permutation.
Qed.

Lemma get_h3_ids_by_point_count_ok df σ d m :
  σ !! df = Some d → rows d ≠ [] → _get_h3_range_lst_from_df d ≠ [] →
  get_h3_ids_by_point_count df m σ = (Ok df, <[df := assigned m d]> σ).
Proof.
  intros Hσ Hrows Hne. rewrite (get_h3_ids_by_point_count_run _ _ _ _ Hσ Hrows).
  cbv zeta. rewrite threshold_loop.
  rewrite decide_False by (by intros ?%sort_nil_inv).
  unfold dropna. cbn [columns rows].
  rewrite decide_True; [done|].
  intros col. rewrite !elem_of_cons, elem_of_add_assignment_columns.
  intros [->|[->|[]%elem_of_nil]]; tauto.
Qed.

Lemma remove_overlapping_h3_ids_ok df σ d lo hi :
  σ !! df = Some d → lo ≤ hi → level_range lo hi d →
  H3_ID ∈ columns d → H3_LVL ∈ columns d →
  remove_overlapping_h3_ids df σ = (Ok df, <[df := promoted lo hi d]> σ).
Proof.
  intros Hσ Hle Hrange Hid Hlvl.
  rewrite (remove_overlapping_h3_ids_run _ _ _ lo hi Hσ) by done.
  by rewrite promote_loop.
Qed.

(** *** The finest passing level *)

Lemma finest_passing_Some m d r L :
  finest_passing m d r = Some L →
  L ∈ _get_h3_range_lst_from_df d ∧ passes m d L r ∧
  ∀ L', L' ∈ _get_h3_range_lst_from_df d → passes m d L' r → L' ≤ L.
Proof.
  intros Hf. apply last_filter_sorted in Hf as (HL & Hp & Hmax);
    [|apply sort_StronglySorted].
  rewrite elem_of_sort in HL. split; [done|]. split; [done|].
  intros L' HL'. apply Hmax. by rewrite elem_of_sort.
Qed.

Lemma finest_passing_None m d r :
  finest_passing m d r = None →
  ∀ L, L ∈ _get_h3_range_lst_from_df d → ¬ passes m d L r.
Proof.
  intros Hf L HL. eapply last_filter_None in Hf; [done|]. by rewrite elem_of_sort.
Qed.

Lemma passes_spec m d L r :
  passes m d L r ↔ ∃ c, h3 r !! L = Some c ∧ (m < Z.of_nat (cell_count d L c))%Z.
Proof.
  unfold passes. destruct (h3 r !! L) as [c|].
  - rewrite bool_decide_spec. split; [by exists c|]. by intros (? & [= <-] & ?).
  - split; [done|]. by intros (? & [=] & _).
Qed.

(** The rows of the assigned table.  A table that had no [h3_id] column
    keeps exactly the rows with a passing level. *)
Lemma elem_of_assigned m d r' :
  H3_ID ∉ columns d → _get_h3_range_lst_from_df d ≠ [] →
  r' ∈ rows (assigned m d) ↔
  ∃ r L, r ∈ rows d ∧ finest_passing m d r = Some L ∧ r' = assigned_row L r.
Proof.
  intros Hfresh Hne. unfold assigned. cbn [rows].
  rewrite list_elem_of_filter, list_elem_of_fmap.
  assert (∀ r, threshold_row m d (sort (_get_h3_range_lst_from_df d)) r
    = match finest_passing m d r with
      | Some L => assigned_row L r
      | None => blank_missing (columns d) r
      end) as Hrow.
  { intros r. unfold threshold_row, finest_passing.
    destruct (list.last _); [done|].
    by rewrite decide_False by (by intros ?%sort_nil_inv). }
  split.
  - intros [Hkeep (r & -> & Hr)]. rewrite Hrow in Hkeep |- *.
    destruct (finest_passing m d r) as [L|] eqn:Hf; [by exists r, L|].
    apply Forall_cons_1 in Hkeep as [Hna _]. simpl in Hna.
    rewrite (bool_decide_eq_false_2 (H3_ID ∈ columns d)) in Hna by done.
    by apply bool_decide_eq_false in Hna.
  - intros (r & L & Hr & Hf & ->). split.
    + apply finest_passing_Some in Hf as (_ & (c & Hc & _)%passes_spec & _).
      constructor; [simpl; rewrite Hc; by apply bool_decide_eq_false|].
      constructor; [done|constructor].
    + exists r. by rewrite Hrow, Hf.
Qed.

End stage_results.

(** ** The grid of the concrete runs satisfies the hierarchy laws *)

Global Instance digit_grid_laws : @H3Laws digit_grid.
Proof.
  split; simpl.
  - intros lat lng res. rewrite length_take, length_app, length_replicate. lia.
  - intros c res Hres. rewrite length_take. lia.
  - intros c res res' Hle _. rewrite take_take. f_equal. lia.
Qed.

Global Instance skew_grid_laws : @H3Laws skew_grid.
Proof.
  split; simpl.
  - intros lat lng res. rewrite length_take, length_app, length_replicate. lia.
  - intros c res Hres. rewrite length_take. lia.
  - intros c res res' Hle _. rewrite take_take. f_equal. lia.
Qed.

Lemma head_filter_seq (P : nat → Prop) `{∀ x, Decision (P x)} lo n x :
  list.head (filter P (seq lo n)) = Some x →
  lo ≤ x < lo + n ∧ P x ∧ ∀ y, lo ≤ y < x → ¬ P y.
Proof.
  revert lo. induction n as [|n IH]; intros lo; simpl; [done|].
  rewrite filter_cons. destruct (decide (P lo)) as [HP|HP].
  - intros [= <-]. split; [lia|]. split; [done|]. lia.
  - intros (Hx & HPx & Hmin)%IH. split; [lia|]. split; [done|].
    intros y Hy. destruct (decide (y = lo)) as [->|]; [done|]. apply Hmin. lia.
Qed.


Lemma promoted_row_cases `{H3Lib} (ids : list (option Cell)) (lo hi : nat) (r : Row) :
  let r' := promoted_row ids (reverse (seq lo (hi - lo))) r in
  SHAPE r' = SHAPE r ∧ h3 r' = h3 r ∧ h3_orig r' = h3_orig r ∧
  ((∃ L, lo ≤ L < hi ∧ h3 r !! L ∈ ids ∧ (∀ L', lo ≤ L' < L → h3 r !! L' ∉ ids) ∧
         h3_id r' = h3 r !! L ∧ h3_lvl r' = Some L) ∨
   ((∀ L, lo ≤ L < hi → h3 r !! L ∉ ids) ∧ h3_id r' = h3_id r ∧ h3_lvl r' = h3_lvl r)).
Proof.
  intros r'. unfold r', promoted_row. rewrite filter_reverse, last_reverse.
  destruct (list.head _) as [L|] eqn:Hhead; simpl.
  - repeat (split; [done|]). left. exists L.
    apply head_filter_seq in Hhead as (? & ? & ?). split; [lia|]. done.
  - repeat (split; [done|]). right. split; [|done].
    intros L HL. eapply head_filter_None in Hhead; [done|].
    apply elem_of_seq. lia.
Qed.


(** ** Nested level columns *)

Section nesting.
Context `{H3Laws}.
Implicit Types (d : DataFrame) (r s : Row) (c : Cell) (col : column)
  (cols : list column) (l : list nat) (σ : gmap ref DataFrame).

Lemma nested_tagged_row lo hi r : nested lo hi (tagged_row lo hi r).
Proof.
  exists (point_cell hi r). split; [apply geo_to_h3_resolution|]. split.
  - rewrite tagged_row_lookup. by rewrite decide_True.
  - intros L HL. rewrite tagged_row_lookup.
    rewrite decide_False by lia. by rewrite decide_True.
Qed.

Lemma nested_ext lo hi r s : h3 s = h3 r → nested lo hi r → nested lo hi s.
Proof. intros Heq (c & ? & ? & ?). exists c. by rewrite Heq. Qed.

Lemma nested_lookup lo hi r L :
  nested lo hi r → lo ≤ L ≤ hi →
  ∃ c, h3 r !! L = Some c ∧ h3_get_resolution c = L.
Proof.
  intros (c0 & Hres & Hhi & Hlo) HL. destruct (decide (L = hi)) as [->|].
  - by exists c0.
  - exists (h3_to_parent c0 L). split; [apply Hlo; lia|].
    apply h3_to_parent_resolution. lia.
Qed.

Lemma nested_parent lo hi r L L' c' :
  nested lo hi r → lo ≤ L → L < L' → L' ≤ hi →
  h3 r !! L' = Some c' → h3 r !! L = Some (h3_to_parent c' L).
Proof.
  intros (c0 & Hres & Hhi & Hlo) ? ? ? Hc'. rewrite Hlo by lia. f_equal.
  destruct (decide (L' = hi)) as [->|]; [congruence|].
  rewrite Hlo in Hc' by lia. injection Hc' as <-.
  rewrite h3_to_parent_parent; [done|lia..].
Qed.

Lemma nested_coarser lo hi r s L L' :
  nested lo hi r → nested lo hi s → lo ≤ L → L ≤ L' → L' ≤ hi →
  h3 r !! L' = h3 s !! L' → h3 r !! L = h3 s !! L.
Proof.
  intros Hr Hs ? ? ? Heq. destruct (decide (L = L')) as [->|]; [done|].
  destruct (nested_lookup lo hi r L' Hr) as (c' & Hc' & _); [lia|].
  rewrite (nested_parent lo hi r L L' c'), (nested_parent lo hi s L L' c');
    (done || lia || congruence).
Qed.

Lemma nested_level lo hi r s L L' c :
  nested lo hi r → nested lo hi s → lo ≤ L ≤ hi → lo ≤ L' ≤ hi →
  h3 r !! L = Some c → h3 s !! L' = Some c → L = L'.
Proof.
  intros Hr Hs HL HL' Hc Hc'.
  destruct (nested_lookup lo hi r L Hr HL) as (c1 & Hc1 & <-).
  destruct (nested_lookup lo hi s L' Hs HL') as (c2 & Hc2 & <-).
  congruence.
Qed.

(** *** Overlap resolution on a consistent table *)

(** The final row sits at the coarsest level at which its cell is in the
    snapshot. *)
Lemma promoted_row_final ids lo hi r :
  consistent lo hi r → h3_id r ∈ ids →
  let r' := promoted_row ids (reverse (seq lo (hi - lo))) r in
  ∃ F, lo ≤ F ≤ hi ∧ h3_id r' = h3 r !! F ∧ h3_lvl r' = Some F ∧
       h3 r !! F ∈ ids ∧ ∀ n, lo ≤ n < F → h3 r !! n ∉ ids.
Proof.
  intros [Hn (L & HL & Hid & Hlvl)] Hin r'.
  destruct (promoted_row_cases ids lo hi r)
    as (_ & _ & _ & [(F & HF & HFin & Hmin & ? & ?)|(Hnone & Hid' & Hlvl')]).
  - exists F. split; [lia|]. done.
  - exists L. fold r' in Hid', Hlvl'. rewrite Hid', Hlvl', Hid.
    split; [done|]. split; [done|]. split; [done|]. split; [by rewrite <-Hid|].
    intros n Hn'. apply Hnone. lia.
Qed.

End nesting.

(** ** Threshold assignment and overlap resolution on a tagged table *)

Lemma length_filter_ext_in {A} (P Q : A → Prop)
    `{∀ x, Decision (P x), ∀ x, Decision (Q x)} (l : list A) :
  (∀ x, x ∈ l → P x ↔ Q x) → length (filter P l) = length (filter Q l).
Proof.
  induction l as [|x l IH]; intros Hext; [done|].
  rewrite !filter_cons.
  destruct (decide (P x)) as [HP|HP], (decide (Q x)) as [HQ|HQ]; simpl;
    try (rewrite IH by (intros; apply Hext; by right); done).
  - destruct HQ. apply Hext; [left|done].
  - destruct HP. apply Hext; [left|done].
Qed.

Lemma filter_fmap {A B} (f : A → B) (P : B → Prop) `{∀ y, Decision (P y)}
    (l : list A) :
  filter P (f <$> l) = f <$> filter (λ x, P (f x)) l.
Proof.
  induction l as [|x l IH]; [done|]. csimpl. rewrite !filter_cons.
  destruct (decide (P (f x))); csimpl; by rewrite IH.
Qed.

Section after_tagging.
Context `{H3Laws}.
Implicit Types (r s : Row) (c : Cell) (col : column)
  (cols : list column) (l : list nat) (σ : gmap ref DataFrame).
Context (m : Z) (lo hi : nat) (d : DataFrame).
Hypothesis Hle : lo ≤ hi.
Hypothesis Hrange : level_range lo hi d.
Hypothesis Hnested : ∀ r, r ∈ rows d → nested lo hi r.
Hypothesis Hfresh : H3_ID ∉ columns d.

Let ids := unique (h3_id <$> rows (assigned m d)).
Local Abbreviation final := (final_row_of m lo hi d).

Lemma levels_nonempty : _get_h3_range_lst_from_df d ≠ [].
Proof.
  intros Hnil. destruct Hrange as [_ Hl]. specialize (Hl lo).
  rewrite Hnil in Hl. apply (elem_of_nil lo), Hl. lia.
Qed.

Lemma assigned_level_range : level_range lo hi (assigned m d).
Proof.
  unfold level_range, _get_h3_range_lst_from_df, assigned, add_assignment_columns.
  cbn [columns]. by rewrite !h3_levels_add_column.
Qed.

Lemma assigned_columns :
  H3_ID ∈ columns (assigned m d) ∧ H3_LVL ∈ columns (assigned m d).
Proof. unfold assigned. cbn [columns]. rewrite !elem_of_add_assignment_columns. tauto. Qed.

Lemma in_levels L : L ∈ _get_h3_range_lst_from_df d ↔ lo ≤ L ≤ hi.
Proof. apply Hrange. Qed.

Lemma assigned_consistent r : r ∈ rows (assigned m d) → consistent lo hi r.
Proof.
  intros (r0 & L & Hr0 & Hf & ->)%elem_of_assigned;
    [|done|apply levels_nonempty].
  apply finest_passing_Some in Hf as (HL%in_levels & _ & _).
  split; [by apply (nested_ext lo hi r0), Hnested|]. by exists L.
Qed.

(** The snapshot holds the cells at which some point has its finest
    passing level. *)
Lemma elem_of_snapshot o :
  o ∈ ids ↔
  ∃ r L c, r ∈ rows d ∧ finest_passing m d r = Some L ∧
           h3 r !! L = Some c ∧ o = Some c.
Proof.
  unfold ids, unique. rewrite elem_of_drop_duplicates, list_elem_of_fmap. split.
  - intros (r' & -> & (r & L & Hr & Hf & ->)%elem_of_assigned);
      [|done|apply levels_nonempty].
    pose proof Hf as (_ & (c & Hc & _)%passes_spec & _)%finest_passing_Some.
    exists r, L, c. simpl. by rewrite Hc.
  - intros (r & L & c & Hr & Hf & Hc & ->). exists (assigned_row L r). split.
    + simpl. by rewrite Hc.
    + apply elem_of_assigned; [done|apply levels_nonempty|]. by exists r, L.
Qed.

Lemma snapshot_passes s n c :
  s ∈ rows d → lo ≤ n ≤ hi → h3 s !! n = Some c → Some c ∈ ids →
  (m < Z.of_nat (cell_count d n c))%Z.
Proof.
  intros Hs Hn Hc (r & L & c' & Hr & Hf & Hc' & [= <-])%elem_of_snapshot.
  pose proof Hf as (HL%in_levels & (c'' & Hc'' & Hcnt)%passes_spec & _)%finest_passing_Some.
  assert (L = n) as ->
    by (apply (nested_level lo hi r s L n c); auto).
  congruence.
Qed.

Lemma finest_passing_ge s L :
  lo ≤ L ≤ hi → passes m d L s →
  ∃ Ls, finest_passing m d s = Some Ls ∧ L ≤ Ls.
Proof.
  intros HL%in_levels Hp. destruct (finest_passing m d s) as [Ls|] eqn:Hf.
  - exists Ls. split; [done|]. by apply (finest_passing_Some _ _ _ _ Hf).
  - by destruct (finest_passing_None _ _ _ Hf L).
Qed.

Lemma threshold_row_finest s Ls :
  finest_passing m d s = Some Ls →
  threshold_row m d (sort (_get_h3_range_lst_from_df d)) s = assigned_row Ls s.
Proof. unfold threshold_row, finest_passing. by intros ->. Qed.

(** Where a retained point ends up. *)
Lemma final_row s Ls :
  s ∈ rows d → finest_passing m d s = Some Ls →
  ∃ F, lo ≤ F ≤ hi ∧ h3_id (final s) = h3 s !! F ∧ h3_lvl (final s) = Some F ∧
       h3 s !! F ∈ ids ∧ ∀ n, lo ≤ n < F → h3 s !! n ∉ ids.
Proof.
  intros Hs Hf. unfold final_row_of. rewrite (threshold_row_finest s Ls Hf).
  apply (promoted_row_final ids lo hi (assigned_row Ls s)).
  - apply assigned_consistent, elem_of_assigned; [done|apply levels_nonempty|].
    by exists s, Ls.
  - pose proof Hf as (_ & (c & Hc & _)%passes_spec & _)%finest_passing_Some.
    apply elem_of_snapshot. exists s, Ls, c. simpl. by rewrite Hc.
Qed.

Lemma promoted_rows :
  rows (promoted lo hi (assigned m d))
  = final <$> filter (λ s, is_Some (finest_passing m d s)) (rows d).
Proof.
  unfold promoted. cbn [rows].
  change (unique (h3_id <$> rows (assigned m d))) with ids.
  unfold assigned. cbn [rows].
  rewrite filter_fmap, <-list_fmap_compose.
  rewrite (list_filter_iff _ (λ s, is_Some (finest_passing m d s))); [done|].
  intros s. simpl.
  unfold threshold_row, finest_passing.
  destruct (list.last _) as [L|] eqn:Hlast.
  - split; [by eauto|]. intros _.
    apply last_Some_elem_of, list_elem_of_filter in Hlast as [(c & Hc & _)%passes_spec _].
    constructor; [simpl; rewrite Hc; by apply bool_decide_eq_false|].
    constructor; [done|constructor].
  - rewrite decide_False by (intros ?%sort_nil_inv; by apply levels_nonempty).
    split; [|by intros [? [=]]]. intros [Hna _]%Forall_cons_1. simpl in Hna.
    rewrite (bool_decide_eq_false_2 (H3_ID ∈ columns d)) in Hna by done.
    by apply bool_decide_eq_false in Hna.
Qed.

(** The points that end in the cell [c] of level [F] are the points of
    that cell. *)
Lemma final_cell_members r F c :
  r ∈ rows d → is_Some (finest_passing m d r) →
  h3_id (final r) = Some c → h3_lvl (final r) = Some F →
  lo ≤ F ≤ hi ∧
  (m < Z.of_nat (cell_count d F c))%Z ∧
  length (filter (λ r3, h3_id r3 = Some c) (rows (promoted lo hi (assigned m d))))
  = cell_count d F c.
Proof.
  intros Hr [Lr Hfr] Hid Hlvl.
  destruct (final_row r Lr Hr Hfr) as (F' & HF & Hid' & Hlvl' & Hin & Hmin).
  assert (F' = F) as -> by congruence. rewrite Hid in Hid'. symmetry in Hid'.
  rewrite Hid' in Hin.
  split; [done|]. split; [by apply (snapshot_passes r)|].
  rewrite promoted_rows, filter_fmap, length_fmap, list_filter_filter.
  unfold cell_count. apply length_filter_ext_in. intros s Hs. simpl. split.
  - intros [Hids [Ls Hfs]].
    destruct (final_row s Ls Hs Hfs) as (Fs & HFs & Hids' & _ & _ & _).
    rewrite Hids in Hids'. symmetry in Hids'.
    assert (F = Fs) as ->
      by (apply (nested_level lo hi r s F Fs c); auto).
    done.
  - intros Hcs.
    destruct (finest_passing_ge s F) as (Ls & Hfs & _); [done|..].
    { apply passes_spec. exists c. split; [done|]. by apply (snapshot_passes r). }
    split; [|by eauto].
    destruct (final_row s Ls Hs Hfs) as (Fs & HFs & -> & _ & Hins & Hmins).
    destruct (decide (Fs = F)) as [->|Hne]; [done|].
    destruct (decide (Fs < F)) as [Hlt|Hge].
    + destruct (Hmin Fs); [lia|].
      rewrite (nested_coarser lo hi r s Fs F); [done|by apply Hnested..|lia|lia|lia|].
      congruence.
    + destruct (Hmins F); [lia|]. by rewrite Hcs.
Qed.

End after_tagging.

(** ** The pipeline *)

Section tagging_facts.
Context `{H3Lib}.
Implicit Types (d : DataFrame) (r s : Row) (c : Cell) (col : column)
  (cols : list column) (l : list nat) (σ : gmap ref DataFrame).

Lemma NoDup_add_column col cols : NoDup cols → NoDup (add_column col cols).
Proof.
  intros Hnd. unfold add_column. destruct (decide (col ∈ cols)); [done|].
  apply list.NoDup_app. split; [done|]. split; [|apply NoDup_singleton].
  intros x Hx ->%list_elem_of_singleton. done.
Qed.

Lemma elem_of_foldl_add_column l cols col :
  col ∈ foldl (λ cols L, add_column (H3 L) cols) cols l ↔
  col ∈ cols ∨ ∃ L, col = H3 L ∧ L ∈ l.
Proof.
  revert cols. induction l as [|L l IH]; intros cols; simpl.
  - split; [by left|]. intros [?|(? & _ & []%elem_of_nil)]. done.
  - rewrite IH, elem_of_add_column. split.
    + intros [[->|?]|(L' & -> & ?)]; [right; exists L; split; [done|left]|by left|].
      right. exists L'. split; [done|by right].
    + intros [?|(L' & -> & [->|?]%elem_of_cons)]; [by left; right|by left; left|].
      right. by exists L'.
Qed.

Lemma NoDup_foldl_add_column l cols :
  NoDup cols → NoDup (foldl (λ cols L, add_column (H3 L) cols) cols l).
Proof.
  revert cols. induction l as [|L l IH]; intros cols Hnd; simpl; [done|].
  by apply IH, NoDup_add_column.
Qed.

Lemma NoDup_h3_levels cols : NoDup cols → NoDup (omap h3_level_of cols).
Proof.
  induction 1 as [|col cols Hnotin Hnd IH]; csimpl; [constructor|].
  destruct col as [L| | |]; simpl; try done.
  constructor; [|done]. by rewrite elem_of_h3_levels.
Qed.

Lemma tagged_level_range lo hi d :
  columns d = [] → lo ≤ hi → level_range lo hi (tagged lo hi d).
Proof.
  intros Hcols Hle. unfold level_range, _get_h3_range_lst_from_df, tagged, tagged_columns.
  cbn [columns]. rewrite Hcols. split.
  - apply NoDup_h3_levels, NoDup_foldl_add_column, NoDup_add_column, NoDup_nil_2.
  - intros L. rewrite elem_of_h3_levels, elem_of_foldl_add_column, elem_of_add_column.
    setoid_rewrite elem_of_reverse. setoid_rewrite elem_of_seq. split.
    + intros [[[= ->]|[]%elem_of_nil]|(L' & [= ->] & ?)]; lia.
    + intros HL. destruct (decide (L = hi)) as [->|]; [by left; left|].
      right. exists L. split; [done|lia].
Qed.

Lemma tagged_fresh lo hi d : columns d = [] → H3_ID ∉ columns (tagged lo hi d).
Proof.
  intros Hcols. unfold tagged, tagged_columns. cbn [columns]. rewrite Hcols.
  rewrite elem_of_foldl_add_column, elem_of_add_column.
  intros [[[=]|[]%elem_of_nil]|(? & [=] & _)].
Qed.

Lemma finest_passing_intro m d r L :
  L ∈ _get_h3_range_lst_from_df d → passes m d L r →
  (∀ L', L' ∈ _get_h3_range_lst_from_df d → passes m d L' r → L' ≤ L) →
  finest_passing m d r = Some L.
Proof.
  intros HL Hp Hmax. destruct (finest_passing m d r) as [L0|] eqn:Hf.
  - apply finest_passing_Some in Hf as (HL0 & Hp0 & Hmax0).
    f_equal. apply Nat.le_antisymm; auto.
  - by destruct (finest_passing_None _ _ _ Hf L).
Qed.

(** The pipeline on a table that has no h3 column yet *)
Lemma pipeline_ok sdf σ d lo hi (m : Z) :
  σ !! sdf = Some d → columns d = [] → rows d ≠ [] → lo < hi →
  let d3 := promoted lo hi (assigned m (tagged lo hi d)) in
  get_nonoverlapping_h3_hexbins_for_points sdf lo hi m σ
  = (Ok (hexbins_of d3), <[sdf := d3]> σ).
Proof.
  intros Hσ Hcols Hrows Hlt d3. unfold get_nonoverlapping_h3_hexbins_for_points.
  assert (rows (tagged lo hi d) ≠ []) as Hrows1
    by (unfold tagged; cbn [rows]; by destruct (rows d)).
  pose proof (tagged_level_range lo hi d Hcols ltac:(lia)) as Hrange.
  assert (_get_h3_range_lst_from_df (tagged lo hi d) ≠ []) as Hne.
  { intros Hnil. destruct Hrange as [_ Hl]. specialize (Hl lo).
    rewrite Hnil in Hl. apply (elem_of_nil lo), Hl. lia. }
  set (d1 := tagged lo hi d) in *. set (d2 := assigned m d1) in *.
  destruct (assigned_columns m d1) as [Hid Hlvl]. fold d2 in Hid, Hlvl.
  rewrite (run_bind_ok _ _ _ _ _ (add_h3_ids_to_points_ok sdf σ d lo hi Hσ Hlt)).
  fold d1.
  rewrite (run_bind_ok _ _ _ _ _
    (get_h3_ids_by_point_count_ok sdf (<[sdf:=d1]> σ) d1 m
       (lookup_insert_eq _ _ _) Hrows1 Hne)).
  fold d2.
  rewrite (run_bind_ok _ _ _ _ _
    (remove_overlapping_h3_ids_ok sdf (<[sdf:=d2]> (<[sdf:=d1]> σ)) d2 lo hi
       (lookup_insert_eq _ _ _) ltac:(lia)
       (assigned_level_range m lo hi d1 Hrange) Hid Hlvl)).
  fold d3.
  rewrite (run_bind_ok _ _ _ _ _
    (get_h3_hexbins_with_counts_run sdf _ d3 (lookup_insert_eq _ _ _) Hid Hlvl)).
  by rewrite !insert_insert_eq.
Qed.

End tagging_facts.

Lemma filter_all {A} (P : A → Prop) `{∀ x, Decision (P x)} (l : list A) :
  (∀ x, x ∈ l → P x) → filter P l = l.
Proof.
  induction l as [|x l IH]; intros Hall; [done|].
  rewrite filter_cons, decide_True by (apply Hall; left).
  f_equal. apply IH. intros y Hy. apply Hall. by right.
Qed.

Lemma filter_none {A} (P : A → Prop) `{∀ x, Decision (P x)} (l : list A) :
  (∀ x, x ∈ l → ¬ P x) → filter P l = [].
Proof.
  induction l as [|x l IH]; intros Hall; [done|].
  rewrite filter_cons, decide_False by (apply Hall; left).
  apply IH. intros y Hy. apply Hall. by right.
Qed.

Lemma length_filter_disjoint {A} (P Q : A → Prop)
    `{∀ x, Decision (P x), ∀ x, Decision (Q x)} (l : list A) :
  (∀ x, P x → Q x → False) →
  length (filter P l) + length (filter Q l) ≤ length l.
Proof.
  intros Hdis. induction l as [|x l IH]; [done|].
  rewrite !filter_cons.
  destruct (decide (P x)) as [HP|HP], (decide (Q x)) as [HQ|HQ]; simpl; try lia.
  by destruct (Hdis x).
Qed.

Section pipeline_claims.
Context `{H3Laws}.
Implicit Types (d : DataFrame) (r s : Row) (c : Cell) (col : column)
  (cols : list column) (l : list nat) (σ : gmap ref DataFrame).

Lemma tagged_nested lo hi d r : r ∈ rows (tagged lo hi d) → nested lo hi r.
Proof. intros (r0 & -> & _)%list_elem_of_fmap. apply nested_tagged_row. Qed.

Lemma cell_count_le d L c : cell_count d L c ≤ length (rows d).
Proof. apply length_filter. Qed.

Lemma hexbins_of_no_rows d : rows d = [] → hexbins_of d = [].
Proof. destruct d as [cols rs]. simpl. by intros ->. Qed.

End pipeline_claims.


(** ** Which tables a stage touches *)

Section in_place.
Context `{H3Lib}.
Implicit Types (d : DataFrame) (σ : gmap ref DataFrame).

(** A stage is [on_ref df body;; mret df]: it writes to [df] only and
    returns [df]. *)
Lemma on_ref_frame {A} (df df' : ref) (body : St A) σ :
  df' ≠ df → (on_ref df body σ).2 !! df' = σ !! df'.
Proof.
  intros Hne. unfold on_ref. destruct (σ !! df) as [d|]; [|done].
  destruct (body d) as [x d']. simpl. by rewrite lookup_insert_ne.
Qed.

Lemma stage_frame {A} (df df' : ref) (body : St A) σ :
  df' ≠ df → ((on_ref df body;; mret df) σ).2 !! df' = σ !! df'.
Proof.
  intros Hne. rewrite <-(on_ref_frame df df' body σ Hne), run_bind.
  by destruct (on_ref df body σ) as [[a|e] σ'].
Qed.

Lemma stage_returns {A} (df r : ref) (body : St A) σ :
  ((on_ref df body;; mret df) σ).1 = Ok r → r = df.
Proof.
  rewrite run_bind. destruct (on_ref df body σ) as [[a|e] σ']; simpl; [|done].
  by intros [= ->].
Qed.

Lemma on_ref_read_only {A} (df : ref) (body : St A) σ :
  (∀ d, (body d).2 = d) → (on_ref df body σ).2 = σ.
Proof.
  intros Hbody. unfold on_ref. destruct (σ !! df) as [d|] eqn:Hσ; [|done].
  specialize (Hbody d). destruct (body d) as [x d']. simpl in *. subst d'.
  by apply insert_id.
Qed.

End in_place.


(** ** A table without rows *)

(** On a tagged table without rows the threshold stage raises: the first
    scalar assignment would have to create the [h3_lvl] column. *)
Lemma get_h3_ids_by_point_count_no_rows `{H3Lib} (df : ref)
    (σ : gmap ref DataFrame) (d : DataFrame) (min_count : Z) :
  σ !! df = Some d → rows d = [] →
  H3_LVL ∉ columns d → _get_h3_range_lst_from_df d ≠ [] →
  (get_h3_ids_by_point_count df min_count σ).1 = Raise ValueError.
Proof.
  intros Hσ Hrows Hlvl Hne. unfold get_h3_ids_by_point_count.
  rewrite run_bind. unfold on_ref. rewrite Hσ.
  rewrite run_bind.
  change ((sort ∘ _get_h3_range_lst_from_df <$> get) d)
    with (Ok (sort (_get_h3_range_lst_from_df d)), d).
  cbv beta iota zeta.
  destruct (sort (_get_h3_range_lst_from_df d)) as [|L l] eqn:Hsort;
    [by apply sort_nil_inv in Hsort|].
  assert (H3 L ∈ columns d) as HL.
  { assert (L ∈ sort (_get_h3_range_lst_from_df d)) as HLs by (rewrite Hsort; left).
    rewrite elem_of_sort in HLs. by apply elem_of_h3_levels in HLs. }
  rewrite run_bind. cbn [for_]. rewrite run_bind.
  rewrite (run_bind_ok _ _ _ _ _ (getitem_h3_run L d HL)).
  rewrite run_bind. unfold fmap at 1, state_fmap at 1. rewrite run_bind.
  unfold values at 1. cbv beta iota zeta.
  unfold mret at 1, state_ret at 1. cbv beta iota zeta.
  rewrite run_bind. unfold loc_setitem at 1, modify at 1. cbv beta iota zeta.
  rewrite run_bind. unfold loc_setitem_scalar at 1.
  rewrite decide_False; [done|].
  unfold loc_set. cbn [columns rows]. rewrite Hrows, elem_of_add_column. simpl.
  intros [[[=]|?]|?]; [done|lia].
Qed.



(** ** Tables that carry columns of an earlier call *)

Section reused_tables.
Context `{H3Lib}.
Implicit Types (d : DataFrame) (r s : Row) (c : Cell) (col : column)
  (cols : list column) (l : list nat) (σ : gmap ref DataFrame).

(** Tagging writes to the level columns only. *)
Lemma foldl_tag_row_fields hi l r :
  SHAPE (foldl (tag_row hi) r l) = SHAPE r ∧
  h3_id (foldl (tag_row hi) r l) = h3_id r ∧
  h3_lvl (foldl (tag_row hi) r l) = h3_lvl r ∧
  h3_orig (foldl (tag_row hi) r l) = h3_orig r.
Proof.
  revert r. induction l as [|L l IH]; intros r; simpl; [done|].
  by destruct (IH (tag_row hi r L)) as (-> & -> & -> & ->).
Qed.

Lemma tagged_row_fields lo hi r :
  SHAPE (tagged_row lo hi r) = SHAPE r ∧
  h3_id (tagged_row lo hi r) = h3_id r ∧
  h3_lvl (tagged_row lo hi r) = h3_lvl r ∧
  h3_orig (tagged_row lo hi r) = h3_orig r.
Proof.
  unfold tagged_row.
  by destruct (foldl_tag_row_fields hi (reverse (seq lo (hi - lo)))
    (set_h3 hi (Some (geo_to_h3 (centroid (SHAPE r)).2 (centroid (SHAPE r)).1 hi)) r))
    as (-> & -> & -> & ->).
Qed.

Lemma elem_of_tagged_columns lo hi cols col :
  lo ≤ hi →
  col ∈ tagged_columns lo hi cols ↔ col ∈ cols ∨ ∃ L, col = H3 L ∧ lo ≤ L ≤ hi.
Proof.
  intros Hle. unfold tagged_columns.
  rewrite elem_of_foldl_add_column, elem_of_add_column.
  setoid_rewrite elem_of_reverse. setoid_rewrite elem_of_seq. split.
  - intros [[->|?]|(L & -> & ?)]; [right; exists hi; split; [done|lia]|by left|].
    right. exists L. split; [done|lia].
  - intros [?|(L & -> & ?)]; [by left; right|].
    destruct (decide (L = hi)) as [->|]; [by left; left|].
    right. exists L. split; [done|lia].
Qed.

(** Tagging again a table whose level columns lie in [lo..hi] leaves
    exactly the level columns [lo..hi]. *)
Lemma tagged_level_range_reused lo hi d :
  NoDup (columns d) → (∀ L, H3 L ∈ columns d → lo ≤ L ≤ hi) → lo ≤ hi →
  level_range lo hi (tagged lo hi d).
Proof.
  intros Hnd Hin Hle. unfold level_range, _get_h3_range_lst_from_df, tagged.
  cbn [columns]. split.
  - apply NoDup_h3_levels. unfold tagged_columns.
    by apply NoDup_foldl_add_column, NoDup_add_column.
  - intros L. rewrite elem_of_h3_levels, elem_of_tagged_columns by done. split.
    + intros [?|(L' & [= ->] & ?)]; [by apply Hin|done].
    + intros HL. right. by exists L.
Qed.

(** The row the threshold loop leaves, by the finest passing level *)
Lemma threshold_row_cases m d r :
  _get_h3_range_lst_from_df d ≠ [] →
  threshold_row m d (sort (_get_h3_range_lst_from_df d)) r
  = match finest_passing m d r with
    | Some L => assigned_row L r
    | None => blank_missing (columns d) r
    end.
Proof.
  intros Hne. unfold threshold_row, finest_passing.
  destruct (list.last _); [done|].
  by rewrite decide_False by (by intros ?%sort_nil_inv).
Qed.

(** On a table without an [h3_id] column the threshold stage keeps the
    rows that have a passing level, in their order. *)
Lemma assigned_rows_fresh m d :
  H3_ID ∉ columns d → _get_h3_range_lst_from_df d ≠ [] →
  rows (assigned m d)
  = omap (λ r, (λ L, assigned_row L r) <$> finest_passing m d r) (rows d).
Proof.
  intros Hfresh Hne. unfold assigned. cbn [rows].
  induction (rows d) as [|r rs IH]; [done|]. csimpl.
  rewrite threshold_row_cases by done.
  destruct (finest_passing m d r) as [L|] eqn:Hf; csimpl.
  - rewrite filter_cons_True; [by rewrite IH|].
    apply finest_passing_Some in Hf as (_ & (c & Hc & _)%passes_spec & _).
    constructor; [simpl; rewrite Hc; by apply bool_decide_eq_false|].
    constructor; [done|constructor].
  - rewrite filter_cons_False; [done|].
    intros [Hna _]%Forall_cons_1. simpl in Hna.
    rewrite (bool_decide_eq_false_2 (H3_ID ∈ columns d)) in Hna by done.
    by apply bool_decide_eq_false in Hna.
Qed.

(** A row that passes at no level keeps what it holds in the assignment
    columns of the table. *)
Lemma threshold_row_below m d r :
  _get_h3_range_lst_from_df d ≠ [] →
  H3_ID ∈ columns d → H3_LVL ∈ columns d → H3_ORIG ∈ columns d →
  (∀ L, L ∈ _get_h3_range_lst_from_df d → ¬ passes m d L r) →
  threshold_row m d (sort (_get_h3_range_lst_from_df d)) r = r.
Proof.
  intros Hne Hid Hlvl Horig Hbelow. rewrite threshold_row_cases by done.
  destruct (finest_passing m d r) as [L|] eqn:Hf.
  - apply finest_passing_Some in Hf as (HL & Hp & _). by destruct (Hbelow L).
  - by apply blank_missing_id.
Qed.

Lemma elem_of_assigned_below m d r :
  _get_h3_range_lst_from_df d ≠ [] →
  H3_ID ∈ columns d → H3_LVL ∈ columns d → H3_ORIG ∈ columns d →
  r ∈ rows d → is_Some (h3_id r) → is_Some (h3_lvl r) →
  (∀ L, L ∈ _get_h3_range_lst_from_df d → ¬ passes m d L r) →
  r ∈ rows (assigned m d).
Proof.
  intros Hne Hid Hlvl Horig Hr [a Ha] [La HLa] Hbelow. unfold assigned. cbn [rows].
  apply list_elem_of_filter. split.
  - constructor; [simpl; rewrite Ha; by apply bool_decide_eq_false|].
    constructor; [simpl; rewrite HLa; by apply bool_decide_eq_false|constructor].
  - apply list_elem_of_fmap. exists r. split; [|done].
    by rewrite threshold_row_below.
Qed.

(** No cell counts more points than the table has. *)
Lemma passes_total m d L r :
  (Z.of_nat (length (rows d)) ≤ m)%Z → ¬ passes m d L r.
Proof.
  intros Hm (c & _ & Hgt)%passes_spec.
  pose proof (length_filter (λ r, h3 r !! L = Some c) (rows d)) as Hle.
  unfold cell_count in Hgt. lia.
Qed.

(** With the threshold at the number of rows or above, a table whose rows
    all hold an assignment comes out of the threshold stage as it went in. *)
Lemma assigned_rows_stale m d :
  _get_h3_range_lst_from_df d ≠ [] →
  H3_ID ∈ columns d → H3_LVL ∈ columns d → H3_ORIG ∈ columns d →
  (∀ r, r ∈ rows d → is_Some (h3_id r) ∧ is_Some (h3_lvl r)) →
  (Z.of_nat (length (rows d)) ≤ m)%Z →
  rows (assigned m d) = rows d.
Proof.
  intros Hne Hid Hlvl Horig Hall Hm. unfold assigned. cbn [rows].
  assert (threshold_row m d (sort (_get_h3_range_lst_from_df d)) <$> rows d
          = rows d) as ->.
  { rewrite <-(list_fmap_id (rows d)) at 2. apply list_fmap_ext.
    intros i r _. apply threshold_row_below; try done.
    intros L _. by apply passes_total. }
  apply filter_all. intros r [[a Ha] [La HLa]]%Hall.
  constructor; [simpl; rewrite Ha; by apply bool_decide_eq_false|].
  constructor; [simpl; rewrite HLa; by apply bool_decide_eq_false|constructor].
Qed.

(** Overlap resolution leaves an id in every row when every row had one. *)
Lemma promoted_row_is_Some (ids : list (option Cell)) lo hi r :
  (∀ o, o ∈ ids → is_Some o) → is_Some (h3_id r) →
  is_Some (h3_id (promoted_row ids (reverse (seq lo (hi - lo))) r)).
Proof.
  intros Hids Hr.
  destruct (promoted_row_cases ids lo hi r)
    as (_ & _ & _ & [(L & _ & Hin & _ & -> & _)|(_ & -> & _)]); [|done].
  by apply Hids.
Qed.

(** Every assigned cell has a record in the output table. *)
Lemma hexbins_of_intro d r c :
  r ∈ rows d → h3_id r = Some c → ∃ rec, rec ∈ hexbins_of d ∧ hex_h3_id rec = c.
Proof.
  intros Hr Hc. unfold hexbins_of. cbv zeta.
  set (cnt := value_counts (h3_id <$> rows d)).
  set (lvl := drop_duplicates ((λ r, (h3_id r, h3_lvl r)) <$> rows d)).
  assert (∃ n, (c, n) ∈ cnt) as [n Hn].
  { eexists. apply elem_of_value_counts. split; [|done].
    apply list_elem_of_fmap. by exists r. }
  assert (∀ {A K V} `{EqDecision K} (key : A → K) (left : list A)
            (right : list (K * V)) a,
    a ∈ left → ∃ x, x ∈ join key left right ∧ x.1 = a) as Hjoin.
  { intros A K V ? key left right a Ha. unfold join.
    setoid_rewrite list_elem_of_bind.
    destruct (filter (λ p, p.1 = key a) right) as [|p ps] eqn:Hf.
    - exists (a, None). split; [|done]. exists a. rewrite Hf. split; [left|done].
    - exists (a, Some p.2). split; [|done]. exists a. rewrite Hf. split; [left|done]. }
  destruct (Hjoin _ _ _ _ fst
    (get_h3_hex_dataframe_from_h3_id_lst cnt.*1) cnt
    (c, get_esri_geometry_for_h3_id c)) as (x & Hx & Hx1).
  { unfold get_h3_hex_dataframe_from_h3_id_lst. cbv zeta. rewrite zip_fmap_diag.
    apply list_elem_of_fmap. exists c. split; [done|].
    apply list_elem_of_fmap. by exists (c, n). }
  destruct (Hjoin _ _ _ _ (λ x : Cell * Polygon * option nat, Some x.1.1) _ lvl x Hx)
    as (y & Hy & Hy1).
  eexists. split; [apply list_elem_of_fmap; by exists y|].
  simpl. by rewrite Hy1, Hx1.
Qed.

(** The pipeline on a table that has rows and, once tagged, exactly the
    level columns [lo..hi] *)
Lemma pipeline_run sdf σ d lo hi (m : Z) :
  σ !! sdf = Some d → rows d ≠ [] → lo < hi →
  level_range lo hi (tagged lo hi d) →
  let d3 := promoted lo hi (assigned m (tagged lo hi d)) in
  get_nonoverlapping_h3_hexbins_for_points sdf lo hi m σ
  = (Ok (hexbins_of d3), <[sdf := d3]> σ).
Proof.
  intros Hσ Hrows Hlt Hrange d3. unfold get_nonoverlapping_h3_hexbins_for_points.
  assert (rows (tagged lo hi d) ≠ []) as Hrows1
    by (unfold tagged; cbn [rows]; by destruct (rows d)).
  assert (_get_h3_range_lst_from_df (tagged lo hi d) ≠ []) as Hne.
  { intros Hnil. destruct Hrange as [_ Hl]. specialize (Hl lo).
    rewrite Hnil in Hl. apply (elem_of_nil lo), Hl. lia. }
  set (d1 := tagged lo hi d) in *. set (d2 := assigned m d1) in *.
  destruct (assigned_columns m d1) as [Hid Hlvl]. fold d2 in Hid, Hlvl.
  rewrite (run_bind_ok _ _ _ _ _ (add_h3_ids_to_points_ok sdf σ d lo hi Hσ Hlt)).
  fold d1.
  rewrite (run_bind_ok _ _ _ _ _
    (get_h3_ids_by_point_count_ok sdf (<[sdf:=d1]> σ) d1 m
       (lookup_insert_eq _ _ _) Hrows1 Hne)).
  fold d2.
  rewrite (run_bind_ok _ _ _ _ _
    (remove_overlapping_h3_ids_ok sdf (<[sdf:=d2]> (<[sdf:=d1]> σ)) d2 lo hi
       (lookup_insert_eq _ _ _) ltac:(lia)
       (assigned_level_range m lo hi d1 Hrange) Hid Hlvl)).
  fold d3.
  rewrite (run_bind_ok _ _ _ _ _
    (get_h3_hexbins_with_counts_run sdf _ d3 (lookup_insert_eq _ _ _) Hid Hlvl)).
  by rewrite !insert_insert_eq.
Qed.

End reused_tables.
(** * The claims *)

(** Decide a closed proposition by evaluation *)
Ltac by_compute :=
  match goal with |- ?P => apply (bool_decide_unpack P); vm_compute; exact I end.

(** C1.  On a table that carries the assignment columns of an earlier
    call, threshold assignment retains a point that holds an assignment
    although its cell exceeds [min_count] at no level of the table: the
    point stays, with the pair it held. *)
Theorem threshold_keeps_earlier_assignment `{H3Lib} (df : ref)
    (σ : gmap ref DataFrame) (d : DataFrame) (min_count : Z) (r : Row) :
  σ !! df = Some d →
  _get_h3_range_lst_from_df d ≠ [] →
  H3_ID ∈ columns d → H3_LVL ∈ columns d → H3_ORIG ∈ columns d →
  r ∈ rows d → is_Some (h3_id r) → is_Some (h3_lvl r) →
  (∀ L c, L ∈ _get_h3_range_lst_from_df d → h3 r !! L = Some c →
          (Z.of_nat (cell_count d L c) ≤ min_count)%Z) →
  ∃ d', get_h3_ids_by_point_count df min_count σ = (Ok df, <[df := d']> σ) ∧
    r ∈ rows d'.
Proof.
  intros Hσ Hne Hid Hlvl Horig Hr Hrid Hrlvl Hbelow. exists (assigned min_count d).
  split.
  - apply get_h3_ids_by_point_count_ok; [done| |done].
    intros Hnil. rewrite Hnil in Hr. by apply elem_of_nil in Hr.
  - apply elem_of_assigned_below; try done.
    intros L HL (c & Hc & Hgt)%passes_spec.
    specialize (Hbelow L c HL Hc). lia.
Qed.

Lemma threshold_keeps_earlier_assignment_witness :
  (demo_store_promoted !! demo_ref = Some demo_promoted) ∧
  (_get_h3_range_lst_from_df demo_promoted ≠ []) ∧
  (H3_ID ∈ columns demo_promoted) ∧ (H3_LVL ∈ columns demo_promoted) ∧
  (H3_ORIG ∈ columns demo_promoted) ∧
  (demo_promoted_row ∈ rows demo_promoted) ∧
  is_Some (h3_id demo_promoted_row) ∧ is_Some (h3_lvl demo_promoted_row) ∧
  (∀ L c, L ∈ _get_h3_range_lst_from_df demo_promoted →
          h3 demo_promoted_row !! L = Some c →
          (Z.of_nat (cell_count demo_promoted L c) ≤ 10)%Z) ∧
  ∃ d', @get_h3_ids_by_point_count digit_grid demo_ref 10 demo_store_promoted
        = (Ok demo_ref, <[demo_ref := d']> demo_store_promoted) ∧
    demo_promoted_row ∈ rows d'.
Proof.
  assert (_get_h3_range_lst_from_df demo_promoted ≠ []) as Hne
    by (vm_compute; discriminate).
  assert (H3_ID ∈ columns demo_promoted) as Hid by (by_compute).
  assert (H3_LVL ∈ columns demo_promoted) as Hlvl by (by_compute).
  assert (H3_ORIG ∈ columns demo_promoted) as Horig by (by_compute).
  assert (demo_promoted_row ∈ rows demo_promoted) as Hr
    by (apply (list_elem_of_lookup_2 _ 0); vm_compute; reflexivity).
  assert (∀ L c, L ∈ _get_h3_range_lst_from_df demo_promoted →
            h3 demo_promoted_row !! L = Some c →
            (Z.of_nat (cell_count demo_promoted L c) ≤ 10)%Z) as Hbelow.
  { intros L c _ _.
    pose proof (length_filter (λ r, h3 r !! L = Some c) (rows demo_promoted)) as Hle.
    unfold cell_count. change (length (rows demo_promoted)) with 4 in Hle. lia. }
  split; [reflexivity|]. split; [exact Hne|]. split; [exact Hid|].
  split; [exact Hlvl|]. split; [exact Horig|]. split; [exact Hr|].
  split; [by eexists|]. split; [by eexists|]. split; [exact Hbelow|].
  apply (@threshold_keeps_earlier_assignment digit_grid demo_ref
           demo_store_promoted demo_promoted 10 demo_promoted_row);
    [reflexivity|exact Hne|exact Hid|exact Hlvl|exact Horig|exact Hr
    |by eexists|by eexists|exact Hbelow].
Defined.

(** Threshold assignment on a table that has points and carries no
    assignment yet.  The stage keeps exactly the points that have a level
    at which their cell counts more than [min_count] points, in their
    order, each with the pair (cell, L) of the finest such level [L]. *)
Theorem threshold_assigns_finest_level `{H3Lib} (df : ref)
    (σ : gmap ref DataFrame) (d : DataFrame) (min_count : Z) :
  σ !! df = Some d →
  rows d ≠ [] →
  H3_ID ∉ columns d →
  _get_h3_range_lst_from_df d ≠ [] →
  ∃ d', get_h3_ids_by_point_count df min_count σ = (Ok df, <[df := d']> σ) ∧
    rows d'
    = omap (λ r, (λ L, mkRow (SHAPE r) (h3 r) (h3 r !! L) (Some L) (Some L))
                   <$> finest_passing min_count d r) (rows d) ∧
    ∀ r L, finest_passing min_count d r = Some L ↔
      L ∈ _get_h3_range_lst_from_df d ∧
      (∃ c, h3 r !! L = Some c ∧ (min_count < Z.of_nat (cell_count d L c))%Z) ∧
      ∀ L' c', L' ∈ _get_h3_range_lst_from_df d → h3 r !! L' = Some c' →
               (min_count < Z.of_nat (cell_count d L' c'))%Z → L' ≤ L.
Proof.
  intros Hσ Hrows Hfresh Hne. exists (assigned min_count d).
  split; [by apply get_h3_ids_by_point_count_ok|].
  split; [by apply assigned_rows_fresh|].
  intros r L. split.
  - intros (HL & Hp%passes_spec & Hmax)%finest_passing_Some.
    split; [done|]. split; [done|].
    intros L' c' HL' Hc' Hgt. apply Hmax; [done|]. apply passes_spec. eauto.
  - intros (HL & Hp & Hmax). apply finest_passing_intro; [done|by apply passes_spec|].
    intros L' HL' (c' & Hc' & Hgt)%passes_spec. eauto.
Qed.

Lemma threshold_assigns_finest_level_witness :
  (demo_store_tagged !! demo_ref = Some demo_tagged) ∧
  rows demo_tagged ≠ [] ∧
  (H3_ID ∉ columns demo_tagged) ∧
  (_get_h3_range_lst_from_df demo_tagged ≠ []) ∧
  ∃ d', @get_h3_ids_by_point_count digit_grid demo_ref 1 demo_store_tagged
        = (Ok demo_ref, <[demo_ref := d']> demo_store_tagged) ∧
    rows d'
    = omap (λ r, (λ L, mkRow (SHAPE r) (h3 r) (h3 r !! L) (Some L) (Some L))
                   <$> finest_passing 1 demo_tagged r) (rows demo_tagged) ∧
    ∀ r L, finest_passing 1 demo_tagged r = Some L ↔
      L ∈ _get_h3_range_lst_from_df demo_tagged ∧
      (∃ c, h3 r !! L = Some c ∧ (1 < Z.of_nat (cell_count demo_tagged L c))%Z) ∧
      ∀ L' c', L' ∈ _get_h3_range_lst_from_df demo_tagged → h3 r !! L' = Some c' →
               (1 < Z.of_nat (cell_count demo_tagged L' c'))%Z → L' ≤ L.
Proof.
  assert (H3_ID ∉ columns demo_tagged) as Hfresh
    by (by_compute).
  assert (_get_h3_range_lst_from_df demo_tagged ≠ []) as Hne
    by (vm_compute; discriminate).
  split; [reflexivity|]. split; [vm_compute; discriminate|].
  split; [exact Hfresh|]. split; [exact Hne|].
  apply (@threshold_assigns_finest_level digit_grid demo_ref demo_store_tagged
           demo_tagged 1);
    [reflexivity|vm_compute; discriminate|exact Hfresh|exact Hne].
Defined.

(** C2.  Called on a table that an earlier call has left, with its level
    columns and an assignment in every row, and with [min_count] above
    the number of its rows, the pipeline returns a table that is not
    empty, and every record of it counts fewer than [min_count] points. *)
Theorem pipeline_reports_cells_below_min_count `{H3Lib} (sdf : ref)
    (σ : gmap ref DataFrame) (d : DataFrame) (h3_min h3_max : nat)
    (min_count : Z) :
  σ !! sdf = Some d → h3_min < h3_max →
  NoDup (columns d) →
  (∀ L, H3 L ∈ columns d → h3_min ≤ L ≤ h3_max) →
  H3_ID ∈ columns d → H3_LVL ∈ columns d → H3_ORIG ∈ columns d →
  rows d ≠ [] →
  (∀ r, r ∈ rows d → is_Some (h3_id r) ∧ is_Some (h3_lvl r)) →
  (Z.of_nat (length (rows d)) < min_count)%Z →
  ∃ out σ',
    get_nonoverlapping_h3_hexbins_for_points sdf h3_min h3_max min_count σ
    = (Ok out, σ') ∧
    out ≠ [] ∧
    ∀ rec, rec ∈ out →
      ∃ n, hex_count rec = Some n ∧ (Z.of_nat n < min_count)%Z.
Proof.
  intros Hσ Hlt Hnd Hin Hid Hlvl Horig Hrows Hall Hm.
  assert (h3_min ≤ h3_max) as Hle by lia.
  pose proof (tagged_level_range_reused h3_min h3_max d Hnd Hin Hle) as Hrange.
  set (d1 := tagged h3_min h3_max d) in *.
  set (d2 := assigned min_count d1).
  set (d3 := promoted h3_min h3_max d2).
  exists (hexbins_of d3), (<[sdf := d3]> σ).
  split; [by apply pipeline_run|].
  assert (length (rows d1) = length (rows d)) as Hlen1 by apply length_fmap.
  assert (∀ col, col ∈ columns d → col ∈ columns d1) as Hcols.
  { intros col Hcol. unfold d1, tagged. cbn [columns].
    apply elem_of_tagged_columns; [done|by left]. }
  assert (∀ r, r ∈ rows d1 → is_Some (h3_id r) ∧ is_Some (h3_lvl r)) as Hall1.
  { intros r1 (r & -> & Hr)%list_elem_of_fmap.
    destruct (tagged_row_fields h3_min h3_max r) as (_ & -> & -> & _). by apply Hall. }
  assert (rows d2 = rows d1) as Hrows2.
  { apply assigned_rows_stale; auto; [|lia].
    intros Hnil. destruct Hrange as [_ Hl]. specialize (Hl h3_min).
    rewrite Hnil in Hl. apply (elem_of_nil h3_min), Hl. lia. }
  assert (length (rows d3) = length (rows d)) as Hlen3.
  { unfold d3, promoted. cbn [rows]. by rewrite length_fmap, Hrows2. }
  split.
  - destruct (rows d3) as [|r3 rs3] eqn:Hrows3;
      [destruct (rows d); [done|discriminate]|].
    assert (r3 ∈ rows d3) as Hr3 by (rewrite Hrows3; left).
    assert (is_Some (h3_id r3)) as [c Hc].
    { unfold d3, promoted in Hr3. cbn [rows] in Hr3.
      apply list_elem_of_fmap in Hr3 as (r2 & -> & Hr2).
      apply promoted_row_is_Some.
      - intros o (s & -> & Hs)%elem_of_drop_duplicates%list_elem_of_fmap.
        rewrite Hrows2 in Hs. by apply Hall1.
      - rewrite Hrows2 in Hr2. by apply Hall1. }
    destruct (hexbins_of_intro d3 r3 c Hr3 Hc) as (rec & Hrec & _).
    intros Hnil. rewrite Hnil in Hrec. by apply elem_of_nil in Hrec.
  - intros rec (_ & Hcnt & _)%elem_of_hexbins_of.
    eexists. split; [exact Hcnt|].
    pose proof (length_filter (λ r, h3_id r = Some (hex_h3_id rec)) (rows d3)). lia.
Qed.

Lemma pipeline_reports_cells_below_min_count_witness :
  (demo_store_promoted !! demo_ref = Some demo_promoted) ∧ 1 < 3 ∧
  NoDup (columns demo_promoted) ∧
  (∀ L, H3 L ∈ columns demo_promoted → 1 ≤ L ≤ 3) ∧
  (H3_ID ∈ columns demo_promoted) ∧ (H3_LVL ∈ columns demo_promoted) ∧
  (H3_ORIG ∈ columns demo_promoted) ∧
  rows demo_promoted ≠ [] ∧
  (∀ r, r ∈ rows demo_promoted → is_Some (h3_id r) ∧ is_Some (h3_lvl r)) ∧
  (Z.of_nat (length (rows demo_promoted)) < 10)%Z ∧
  ∃ out σ',
    @get_nonoverlapping_h3_hexbins_for_points digit_grid demo_ref 1 3 10
      demo_store_promoted
    = (Ok out, σ') ∧
    out ≠ [] ∧
    ∀ rec, rec ∈ out → ∃ n, hex_count rec = Some n ∧ (Z.of_nat n < 10)%Z.
Proof.
  assert (NoDup (columns demo_promoted)) as Hnd by (by_compute).
  assert (∀ L, H3 L ∈ columns demo_promoted → 1 ≤ L ≤ 3) as Hin.
  { intros L. change (columns demo_promoted)
      with [@H3 3; H3 2; H3 1; H3_ID; H3_LVL; H3_ORIG].
    rewrite !elem_of_cons, elem_of_nil.
    intros [[= ->]|[[= ->]|[[= ->]|[[=]|[[=]|[[=]|[]]]]]]]; lia. }
  assert (H3_ID ∈ columns demo_promoted) as Hid by (by_compute).
  assert (H3_LVL ∈ columns demo_promoted) as Hlvl by (by_compute).
  assert (H3_ORIG ∈ columns demo_promoted) as Horig by (by_compute).
  assert (∀ r, r ∈ rows demo_promoted → is_Some (h3_id r) ∧ is_Some (h3_lvl r))
    as Hall by (apply list.Forall_forall; by_compute).
  split; [reflexivity|]. split; [lia|]. split; [exact Hnd|]. split; [exact Hin|].
  split; [exact Hid|]. split; [exact Hlvl|]. split; [exact Horig|].
  split; [vm_compute; discriminate|]. split; [exact Hall|].
  split; [vm_compute; reflexivity|].
  apply (@pipeline_reports_cells_below_min_count digit_grid demo_ref
           demo_store_promoted demo_promoted 1 3 10);
    [reflexivity|lia|exact Hnd|exact Hin|exact Hid|exact Hlvl|exact Horig
    |vm_compute; discriminate|exact Hall|vm_compute; reflexivity].
Defined.

(** The run behind it: the pipeline on the five demo points with levels
    1..3 and threshold 1 leaves [demo_promoted] in the caller's table; a
    second call on that table with threshold 10 returns the cell [1] with
    its 4 points. *)
Example second_call_reports_cell_below_min_count :
  (@get_nonoverlapping_h3_hexbins_for_points digit_grid demo_ref 1 3 1 demo_store).2
  = demo_store_promoted ∧
  (@get_nonoverlapping_h3_hexbins_for_points digit_grid demo_ref 1 3 10
     demo_store_promoted).1
  = Ok [@mkHexRow digit_grid [1] (@get_esri_geometry_for_h3_id digit_grid [1])
          (Some 4) (Some 1)].
Proof. split; vm_compute; reflexivity. Qed.

(** The suppression floor on a table of points that has no h3 column
    yet.  Every record of the output counts exactly the points of its cell
    at its level, and that is more than [min_count] points.  A point whose cell is at or below the
    threshold at every level lies in the cell of no output record. *)
Theorem suppression_floor `{H3Laws} (sdf : ref) (σ : gmap ref DataFrame)
    (d : DataFrame) (h3_min h3_max : nat) (min_count : Z) :
  σ !! sdf = Some d → columns d = [] → rows d ≠ [] → h3_min < h3_max →
  ∃ d1 out σ',
    add_h3_ids_to_points sdf h3_max h3_min σ = (Ok sdf, <[sdf := d1]> σ) ∧
    get_nonoverlapping_h3_hexbins_for_points sdf h3_min h3_max min_count σ
    = (Ok out, σ') ∧
    (∀ rec, rec ∈ out →
       ∃ F, h3_min ≤ F ≤ h3_max ∧ hex_h3_lvl rec = Some F ∧
            hex_count rec = Some (cell_count d1 F (hex_h3_id rec)) ∧
            (min_count < Z.of_nat (cell_count d1 F (hex_h3_id rec)))%Z) ∧
    (∀ r, r ∈ rows d1 →
       (∀ L, h3_min ≤ L ≤ h3_max → ¬ passes min_count d1 L r) →
       ∀ rec F, rec ∈ out → hex_h3_lvl rec = Some F →
                h3 r !! F ≠ Some (hex_h3_id rec)).
Proof.
  intros Hσ Hcols Hrows Hlt.
  set (d1 := tagged h3_min h3_max d).
  set (d3 := promoted h3_min h3_max (assigned min_count d1)).
  exists d1, (hexbins_of d3), (<[sdf := d3]> σ).
  split; [by apply add_h3_ids_to_points_ok|].
  split; [by apply pipeline_ok|].
  assert (h3_min ≤ h3_max) as Hle by lia.
  pose proof (tagged_level_range h3_min h3_max d Hcols Hle) as Hrange.
  pose proof (tagged_fresh h3_min h3_max d Hcols) as Hfresh.
  assert (∀ rec, rec ∈ hexbins_of d3 →
    ∃ F, h3_min ≤ F ≤ h3_max ∧ hex_h3_lvl rec = Some F ∧
         hex_count rec = Some (cell_count d1 F (hex_h3_id rec)) ∧
         (min_count < Z.of_nat (cell_count d1 F (hex_h3_id rec)))%Z) as Hrec.
  { intros rec (_ & Hcnt & r3 & Hr3 & Hid & Hlvl)%elem_of_hexbins_of.
    unfold d3 in Hr3. rewrite promoted_rows in Hr3 by done.
    apply list_elem_of_fmap in Hr3 as (r & -> & [Hf Hr]%list_elem_of_filter).
    destruct Hf as [Lr Hf].
    destruct (final_row min_count h3_min h3_max d1 Hle Hrange (tagged_nested _ _ _)
                Hfresh r Lr Hr Hf) as (F & HF & _ & HlvlF & _).
    destruct (final_cell_members min_count h3_min h3_max d1 Hle Hrange
                (tagged_nested _ _ _) Hfresh r F (hex_h3_id rec))
      as (_ & Hgt & Hlen); [done|by eauto|done|done|].
    exists F. rewrite Hlvl, HlvlF, Hcnt. fold d3 in Hlen. by rewrite Hlen. }
  split; [done|].
  intros r Hr Hbelow rec F (F' & HF & HlvlF & _ & Hgt)%Hrec Hlvl Hcell.
  assert (F' = F) as -> by congruence.
  apply (Hbelow F HF), passes_spec. eauto.
Qed.

Lemma suppression_floor_witness :
  (demo_store !! demo_ref = Some demo_points) ∧ columns demo_points = [] ∧
  rows demo_points ≠ [] ∧ 1 < 3 ∧
  ∃ d1 out σ',
    @add_h3_ids_to_points digit_grid demo_ref 3 1 demo_store
    = (Ok demo_ref, <[demo_ref := d1]> demo_store) ∧
    @get_nonoverlapping_h3_hexbins_for_points digit_grid demo_ref 1 3 1 demo_store
    = (Ok out, σ') ∧
    (∀ rec, rec ∈ out →
       ∃ F, 1 ≤ F ≤ 3 ∧ hex_h3_lvl rec = Some F ∧
            hex_count rec = Some (cell_count d1 F (hex_h3_id rec)) ∧
            (1 < Z.of_nat (cell_count d1 F (hex_h3_id rec)))%Z) ∧
    (∀ r, r ∈ rows d1 →
       (∀ L, 1 ≤ L ≤ 3 → ¬ passes 1 d1 L r) →
       ∀ rec F, rec ∈ out → hex_h3_lvl rec = Some F →
                h3 r !! F ≠ Some (hex_h3_id rec)).
Proof.
  split; [reflexivity|]. split; [reflexivity|]. split; [discriminate|].
  split; [lia|].
  apply (@suppression_floor digit_grid digit_grid_laws demo_ref demo_store
           demo_points 1 3 1); [reflexivity|reflexivity|discriminate|lia].
Defined.

(** C3.  Overlap resolution looks for the ancestors of an assigned cell in
    the level columns of the row that holds it.  When those columns hold
    no cell of the snapshot, as can be on a table that carries a level
    column of an earlier call, the row keeps its cell [b] although another
    row holds a strict ancestor [a] of [b]: both are assigned cells of the
    table the stage returns. *)
Theorem remove_overlapping_keeps_overlap `{H3Lib} (df : ref)
    (σ : gmap ref DataFrame) (d : DataFrame) (lo hi : nat) (r s : Row)
    (a b : Cell) :
  σ !! df = Some d →
  lo ≤ hi → level_range lo hi d →
  H3_ID ∈ columns d → H3_LVL ∈ columns d →
  r ∈ rows d → s ∈ rows d →
  h3_id r = Some b → h3_id s = Some a →
  strict_ancestor a b →
  (∀ L, lo ≤ L < hi → h3 r !! L ∉ unique (h3_id <$> rows d)) →
  (∀ L, lo ≤ L < hi → h3 s !! L ∈ unique (h3_id <$> rows d) →
        h3 s !! L = Some a) →
  ∃ d', remove_overlapping_h3_ids df σ = (Ok df, <[df := d']> σ) ∧
    ∃ r' s', r' ∈ rows d' ∧ s' ∈ rows d' ∧
      h3_id r' = Some b ∧ h3_id s' = Some a ∧ strict_ancestor a b.
Proof.
  intros Hσ Hle Hrange Hid Hlvl Hr Hs Hb Ha Hanc Hrcols Hscols.
  exists (promoted lo hi d).
  split; [by apply remove_overlapping_h3_ids_ok|].
  set (ids := unique (h3_id <$> rows d)) in *.
  exists (promoted_row ids (reverse (seq lo (hi - lo))) r),
         (promoted_row ids (reverse (seq lo (hi - lo))) s).
  split; [unfold promoted; cbn [rows]; apply list_elem_of_fmap; by exists r|].
  split; [unfold promoted; cbn [rows]; apply list_elem_of_fmap; by exists s|].
  split; [|split; [|done]].
  - destruct (promoted_row_cases ids lo hi r)
      as (_ & _ & _ & [(L & HL & Hin & _)|(_ & -> & _)]); [|done].
    by destruct (Hrcols L).
  - destruct (promoted_row_cases ids lo hi s)
      as (_ & _ & _ & [(L & HL & Hin & _ & -> & _)|(_ & -> & _)]); [|done].
    by apply Hscols.
Qed.

Lemma remove_overlapping_keeps_overlap_witness :
  (skew_store_second_call !! demo_ref = Some skew_second_call) ∧
  1 ≤ 3 ∧ level_range 1 3 skew_second_call ∧
  (H3_ID ∈ columns skew_second_call) ∧ (H3_LVL ∈ columns skew_second_call) ∧
  (skew_fine_row ∈ rows skew_second_call) ∧
  (skew_coarse_row ∈ rows skew_second_call) ∧
  h3_id skew_fine_row = Some [1; 1; 1] ∧ h3_id skew_coarse_row = Some [1; 1] ∧
  @strict_ancestor skew_grid [1; 1] [1; 1; 1] ∧
  (∀ L, 1 ≤ L < 3 →
        h3 skew_fine_row !! L ∉ unique (h3_id <$> rows skew_second_call)) ∧
  (∀ L, 1 ≤ L < 3 →
        h3 skew_coarse_row !! L ∈ unique (h3_id <$> rows skew_second_call) →
        h3 skew_coarse_row !! L = Some [1; 1]) ∧
  ∃ d', @remove_overlapping_h3_ids skew_grid demo_ref skew_store_second_call
        = (Ok demo_ref, <[demo_ref := d']> skew_store_second_call) ∧
    ∃ r' s', r' ∈ rows d' ∧ s' ∈ rows d' ∧
      h3_id r' = Some [1; 1; 1] ∧ h3_id s' = Some [1; 1] ∧
      @strict_ancestor skew_grid [1; 1] [1; 1; 1].
Proof.
  assert (level_range 1 3 skew_second_call) as Hrange.
  { split; [by_compute|].
    intros L. change (_get_h3_range_lst_from_df skew_second_call) with [3; 2; 1].
    rewrite !elem_of_cons, elem_of_nil. lia. }
  assert (H3_ID ∈ columns skew_second_call) as Hid by (by_compute).
  assert (H3_LVL ∈ columns skew_second_call) as Hlvl by (by_compute).
  assert (skew_fine_row ∈ rows skew_second_call) as Hr
    by (apply (list_elem_of_lookup_2 _ 0); vm_compute; reflexivity).
  assert (skew_coarse_row ∈ rows skew_second_call) as Hs
    by (apply (list_elem_of_lookup_2 _ 2); vm_compute; reflexivity).
  assert (@strict_ancestor skew_grid [1; 1] [1; 1; 1]) as Hanc
    by (split; [simpl; lia|reflexivity]).
  assert (∀ L, 1 ≤ L < 3 →
            h3 skew_fine_row !! L ∉ unique (h3_id <$> rows skew_second_call))
    as Hrcols.
  { intros L HL. assert (L = 1 ∨ L = 2) as [->| ->] by lia; by_compute. }
  assert (∀ L, 1 ≤ L < 3 →
            h3 skew_coarse_row !! L ∈ unique (h3_id <$> rows skew_second_call) →
            h3 skew_coarse_row !! L = Some [1; 1]) as Hscols.
  { intros L HL. assert (L = 1 ∨ L = 2) as [->| ->] by lia; [|reflexivity].
    intros Hin. exfalso. revert Hin. by_compute. }
  split; [reflexivity|]. split; [lia|]. split; [exact Hrange|].
  split; [exact Hid|]. split; [exact Hlvl|]. split; [exact Hr|].
  split; [exact Hs|]. split; [reflexivity|]. split; [reflexivity|].
  split; [exact Hanc|]. split; [exact Hrcols|]. split; [exact Hscols|].
  apply (@remove_overlapping_keeps_overlap skew_grid demo_ref
           skew_store_second_call skew_second_call 1 3
           skew_fine_row skew_coarse_row [1; 1] [1; 1; 1]);
    [reflexivity|lia|exact Hrange|exact Hid|exact Hlvl|exact Hr|exact Hs
    |reflexivity|reflexivity|exact Hanc|exact Hrcols|exact Hscols].
Defined.

(** The run behind it, in the skewed grid: a first call of the pipeline on
    four points with levels 1..3 and threshold 0; a second call on the
    same table with levels 1..2 and threshold 1 takes [skew_second_call]
    into overlap resolution and returns the cell [1; 1; 1] at level 3
    together with its parent [1; 1] at level 2. *)
Example second_call_returns_overlapping_cells :
  let σ1 :=
    (@get_nonoverlapping_h3_hexbins_for_points skew_grid demo_ref 1 3 0
       skew_store).2 in
  σ1 !! demo_ref = Some skew_first_call ∧
  (df ← @add_h3_ids_to_points skew_grid demo_ref 2 1;
   get_h3_ids_by_point_count df 1) σ1
  = (Ok demo_ref, skew_store_second_call) ∧
  (@get_nonoverlapping_h3_hexbins_for_points skew_grid demo_ref 1 2 1 σ1).1
  = Ok [@mkHexRow skew_grid [1; 1; 1]
          (@get_esri_geometry_for_h3_id skew_grid [1; 1; 1]) (Some 2) (Some 3);
        @mkHexRow skew_grid [1; 1]
          (@get_esri_geometry_for_h3_id skew_grid [1; 1]) (Some 2) (Some 2)].
Proof. cbv zeta. repeat split; vm_compute; reflexivity. Qed.

(** Overlap resolution on a table whose level columns hold the parents
    of the cell of the point and whose rows each hold the cell of one of
    their level columns, as the first two stages leave a table that had
    no h3 column.  The assigned cells form an antichain: no assigned cell is a
    strict ancestor of another assigned cell.  The level recorded with a
    cell is the resolution of the cell. *)
Theorem remove_overlapping_antichain `{H3Laws} (df : ref)
    (σ : gmap ref DataFrame) (d : DataFrame) (lo hi : nat) :
  σ !! df = Some d →
  lo ≤ hi → level_range lo hi d →
  H3_ID ∈ columns d → H3_LVL ∈ columns d →
  (∀ r, r ∈ rows d → consistent lo hi r) →
  ∃ d', remove_overlapping_h3_ids df σ = (Ok df, <[df := d']> σ) ∧
    (∀ r, r ∈ rows d' →
       ∃ a, h3_id r = Some a ∧ h3_lvl r = Some (h3_get_resolution a)) ∧
    (∀ r s a b, r ∈ rows d' → s ∈ rows d' →
       h3_id r = Some a → h3_id s = Some b → ¬ strict_ancestor a b).
Proof.
  intros Hσ Hle Hrange Hid Hlvl Hcons. exists (promoted lo hi d).
  split; [by apply remove_overlapping_h3_ids_ok|].
  set (ids := unique (h3_id <$> rows d)).
  assert (∀ r, r ∈ rows (promoted lo hi d) →
    ∃ r0 F a, r0 ∈ rows d ∧ nested lo hi r0 ∧ lo ≤ F ≤ hi ∧
      h3_id r = Some a ∧ h3_lvl r = Some F ∧ h3_get_resolution a = F ∧
      h3 r0 !! F = Some a ∧ Some a ∈ ids ∧
      ∀ n, lo ≤ n < F → h3 r0 !! n ∉ ids) as Hfinal.
  { intros r (r0 & -> & Hr0)%list_elem_of_fmap.
    destruct (promoted_row_final ids lo hi r0) as (F & HF & HidF & HlvlF & Hin & Hmin).
    - by apply Hcons.
    - apply elem_of_drop_duplicates, list_elem_of_fmap. by exists r0.
    - destruct (Hcons r0 Hr0) as [Hn _].
      destruct (nested_lookup lo hi r0 F Hn HF) as (a & Ha & Hres).
      exists r0, F, a. unfold ids in *. rewrite HidF, HlvlF. rewrite Ha in Hin. done. }
  split.
  - intros r (r0 & F & a & _ & _ & _ & Hi & Hl & Hres & _)%Hfinal.
    exists a. by rewrite Hres.
  - intros r s a b (r0 & Fr & a' & Hr0 & Hnr & HFr & Hida & _ & Hresa & Hcella & Hina & _)%Hfinal
      (s0 & Fs & b' & Hs0 & Hns & HFs & Hidb & _ & Hresb & Hcellb & _ & Hmin)%Hfinal
      Ha Hb [Hlt Hpar].
    rewrite Hida in Ha. rewrite Hidb in Hb. simplify_eq.
    apply (Hmin (h3_get_resolution a)); [lia|].
    rewrite (nested_parent lo hi s0 (h3_get_resolution a) (h3_get_resolution b) b Hns);
      [|lia|done|lia|done].
    by rewrite Hpar.
Qed.

Lemma remove_overlapping_antichain_witness :
  (spread_store_assigned !! demo_ref = Some spread_assigned) ∧
  1 ≤ 3 ∧ level_range 1 3 spread_assigned ∧
  H3_ID ∈ columns spread_assigned ∧ H3_LVL ∈ columns spread_assigned ∧
  (∀ r, r ∈ rows spread_assigned → consistent 1 3 r) ∧
  ∃ d', @remove_overlapping_h3_ids digit_grid demo_ref spread_store_assigned
        = (Ok demo_ref, <[demo_ref := d']> spread_store_assigned) ∧
    (∀ r, r ∈ rows d' →
       ∃ a, h3_id r = Some a ∧ h3_lvl r = Some (h3_get_resolution a)) ∧
    (∀ r s a b, r ∈ rows d' → s ∈ rows d' →
       h3_id r = Some a → h3_id s = Some b → ¬ strict_ancestor a b).
Proof.
  assert (level_range 1 3 spread_assigned) as Hrange.
  { split; [by_compute|].
    intros L. change (_get_h3_range_lst_from_df spread_assigned) with [3; 2; 1].
    rewrite !elem_of_cons, elem_of_nil. lia. }
  assert (H3_ID ∈ columns spread_assigned) as Hid
    by (by_compute).
  assert (H3_LVL ∈ columns spread_assigned) as Hlvl
    by (by_compute).
  assert (∀ r, r ∈ rows spread_assigned → consistent 1 3 r) as Hcons.
  { apply (@assigned_consistent digit_grid 0 1 3
             (tagged 1 3 (@points_df digit_grid spread_pts)));
      [lia| |apply (@tagged_nested digit_grid digit_grid_laws)|by_compute].
    apply (tagged_level_range 1 3 (@points_df digit_grid spread_pts));
      [reflexivity|lia]. }
  split; [reflexivity|]. split; [lia|]. split; [exact Hrange|].
  split; [exact Hid|]. split; [exact Hlvl|]. split; [exact Hcons|].
  apply (@remove_overlapping_antichain digit_grid digit_grid_laws demo_ref
           spread_store_assigned spread_assigned 1 3);
    [reflexivity|lia|exact Hrange|exact Hid|exact Hlvl|exact Hcons].
Defined.

(** C4 (scenario B).  110 points under one level-8 cell, 50 of them in one
    level-9 cell, levels 5..9 and threshold 100: the output is the single
    record of the level-8 cell with count 110. *)
Theorem scenario_B `{H3Laws} (sdf : ref) (σ : gmap ref DataFrame)
    (d : DataFrame) (c9 p8 : Cell) :
  σ !! sdf = Some d → columns d = [] →
  length (rows d) = 110 →
  length (filter (λ r, point_cell 9 r = c9) (rows d)) = 50 →
  Forall (λ r, h3_to_parent (point_cell 9 r) 8 = p8) (rows d) →
  ∃ σ', get_nonoverlapping_h3_hexbins_for_points sdf 5 9 100 σ
        = (Ok [mkHexRow p8 (get_esri_geometry_for_h3_id p8) (Some 110) (Some 8)],
           σ').
Proof.
  intros Hσ Hcols Hlen H50 Hp8. rewrite list.Forall_forall in Hp8. eexists.
  assert (rows d ≠ []) as Hpoints by (intros Hnil; by rewrite Hnil in Hlen).
  rewrite (pipeline_ok sdf σ d 5 9 100 Hσ Hcols Hpoints ltac:(lia)). cbv zeta.
  set (d1 := tagged 5 9 d).
  pose proof (tagged_level_range 5 9 d Hcols ltac:(lia)) as Hrange. fold d1 in Hrange.
  pose proof (tagged_fresh 5 9 d Hcols) as Hfresh. fold d1 in Hfresh.
  assert (5 ≤ 9) as Hle by lia.
  assert (∀ r, r ∈ rows d1 → nested 5 9 r) as Hnested by apply tagged_nested.
  (* the cells of a tagged row *)
  assert (∀ L c, cell_count d1 L c
    = length (filter (λ r0, h3 (tagged_row 5 9 r0) !! L = Some c) (rows d))) as Hcount.
  { intros. unfold cell_count, d1, tagged. cbn [rows].
    by rewrite filter_fmap, length_fmap. }
  assert (∀ r0, r0 ∈ rows d → h3 (tagged_row 5 9 r0) !! 8 = Some p8) as H8.
  { intros r0 Hr0. rewrite tagged_row_lookup. simpl. by rewrite (Hp8 r0 Hr0). }
  assert (∀ r0, h3 (tagged_row 5 9 r0) !! 9 = Some (point_cell 9 r0)) as H9.
  { intros r0. by rewrite tagged_row_lookup. }
  (* every point has its finest passing level at 8 *)
  assert (∀ r, r ∈ rows d1 → finest_passing 100 d1 r = Some 8) as Hfinest.
  { intros r (r0 & -> & Hr0)%list_elem_of_fmap.
    apply finest_passing_intro.
    - apply Hrange. lia.
    - apply passes_spec. exists p8. split; [by apply H8|].
      rewrite Hcount, filter_all, Hlen by done. lia.
    - intros L [_ HL]%Hrange (c & Hc & Hgt)%passes_spec.
      destruct (decide (L = 9)) as [->|]; [|lia].
      rewrite H9 in Hc. injection Hc as <-.
      rewrite Hcount in Hgt.
      rewrite (length_filter_ext_in _ (λ r1, point_cell 9 r1 = point_cell 9 r0)) in Hgt
        by (intros; rewrite H9; split; congruence).
      destruct (decide (point_cell 9 r0 = c9)) as [Heq|Hne].
      + rewrite Heq in Hgt. lia.
      + pose proof (length_filter_disjoint
          (λ r1, point_cell 9 r1 = point_cell 9 r0) (λ r1, point_cell 9 r1 = c9)
          (rows d) ltac:(congruence)). lia. }
  (* and ends at level 8 in the cell p8 *)
  assert (∀ r, r ∈ rows d1 →
    h3_id (final_row_of 100 5 9 d1 r) = Some p8 ∧
    h3_lvl (final_row_of 100 5 9 d1 r) = Some 8) as Hfinal.
  { intros r Hr.
    destruct (final_row 100 5 9 d1 Hle Hrange Hnested Hfresh r 8 Hr (Hfinest r Hr))
      as (F & HF & -> & -> & Hin & _).
    apply (elem_of_snapshot 100 5 9 d1 Hle Hrange Hfresh) in Hin
      as (r' & L & c & Hr' & Hf' & Hc' & Hc).
    rewrite (Hfinest r' Hr') in Hf'. injection Hf' as <-.
    pose proof Hr' as (r0' & -> & Hr0')%list_elem_of_fmap.
    rewrite (H8 r0' Hr0') in Hc'. injection Hc' as <-.
    pose proof Hr as (r0 & -> & Hr0)%list_elem_of_fmap.
    assert (F = 8) as ->; [|split; [by apply H8|done]].
    apply (nested_level 5 9 (tagged_row 5 9 r0) (tagged_row 5 9 r0) F 8 p8);
      auto using nested_tagged_row; lia. }
  assert (rows (promoted 5 9 (assigned 100 d1)) = final_row_of 100 5 9 d1 <$> rows d1)
    as Hrows.
  { rewrite promoted_rows by done. rewrite filter_all; [done|].
    intros r Hr. rewrite (Hfinest r Hr). by eexists. }
  assert (length (rows (promoted 5 9 (assigned 100 d1))) = 110) as Hlen3.
  { rewrite Hrows, length_fmap. unfold d1, tagged. cbn [rows]. by rewrite length_fmap. }
  rewrite (hexbins_of_const _ p8 8), Hlen3; [done|..].
  - intros Hnil. by rewrite Hnil in Hlen3.
  - rewrite Hrows. intros r3 (r & -> & Hr)%list_elem_of_fmap. by apply Hfinal.
Qed.

Lemma scenario_B_witness :
  (scenario_B_store !! demo_ref = Some scenario_B_points) ∧
  columns scenario_B_points = [] ∧
  length (rows scenario_B_points) = 110 ∧
  length (filter (λ r, @point_cell digit_grid 9 r = scenario_B_cell ++ [1])
            (rows scenario_B_points)) = 50 ∧
  Forall (λ r, @h3_to_parent digit_grid (point_cell 9 r) 8 = scenario_B_cell)
    (rows scenario_B_points) ∧
  ∃ σ', @get_nonoverlapping_h3_hexbins_for_points digit_grid demo_ref 5 9 100
          scenario_B_store
        = (Ok [@mkHexRow digit_grid scenario_B_cell
                 (@get_esri_geometry_for_h3_id digit_grid scenario_B_cell)
                 (Some 110) (Some 8)],
           σ').
Proof.
  assert (length (filter (λ r, @point_cell digit_grid 9 r = scenario_B_cell ++ [1])
            (rows scenario_B_points)) = 50) as H50 by (vm_compute; reflexivity).
  assert (Forall (λ r, @h3_to_parent digit_grid (point_cell 9 r) 8 = scenario_B_cell)
            (rows scenario_B_points)) as Hp8
    by (by_compute).
  split; [reflexivity|]. split; [reflexivity|]. split; [reflexivity|].
  split; [exact H50|]. split; [exact Hp8|].
  apply (@scenario_B digit_grid digit_grid_laws demo_ref scenario_B_store
           scenario_B_points (scenario_B_cell ++ [1]) scenario_B_cell);
    [reflexivity|reflexivity|reflexivity|exact H50|exact Hp8].
Defined.

(** C5.  Overlap resolution compares against one snapshot: the distinct
    [h3_id] values of the table as it is handed in.  Each point ends at the
    coarsest level in [lo, hi) at which its cell is in that snapshot, and
    keeps its assignment when there is no such level. *)
Theorem remove_overlapping_uses_snapshot `{H3Lib} (df : ref)
    (σ : gmap ref DataFrame) (d : DataFrame) (lo hi : nat) :
  σ !! df = Some d →
  lo ≤ hi → level_range lo hi d →
  H3_ID ∈ columns d → H3_LVL ∈ columns d →
  let ids := unique (h3_id <$> rows d) in
  ∃ d', remove_overlapping_h3_ids df σ = (Ok df, <[df := d']> σ) ∧
    columns d' = columns d ∧
    Forall2 (λ r r',
      SHAPE r' = SHAPE r ∧ h3 r' = h3 r ∧ h3_orig r' = h3_orig r ∧
      ((∃ L, lo ≤ L < hi ∧ h3 r !! L ∈ ids ∧
             (∀ L', lo ≤ L' < L → h3 r !! L' ∉ ids) ∧
             h3_id r' = h3 r !! L ∧ h3_lvl r' = Some L) ∨
       ((∀ L, lo ≤ L < hi → h3 r !! L ∉ ids) ∧
        h3_id r' = h3_id r ∧ h3_lvl r' = h3_lvl r)))
      (rows d) (rows d').
Proof.
  intros Hσ Hle Hrange Hid Hlvl ids. exists (promoted lo hi d).
  split; [by apply remove_overlapping_h3_ids_ok|]. split; [done|].
  unfold promoted. cbn [rows]. apply Forall2_fmap_r, Forall_Forall2_diag, Forall_forall.
  intros r _. apply promoted_row_cases.
Qed.

Lemma remove_overlapping_uses_snapshot_witness :
  (demo_store_assigned !! demo_ref = Some demo_assigned) ∧
  1 ≤ 3 ∧ level_range 1 3 demo_assigned ∧
  H3_ID ∈ columns demo_assigned ∧ H3_LVL ∈ columns demo_assigned ∧
  let ids := unique (h3_id <$> rows demo_assigned) in
  ∃ d', @remove_overlapping_h3_ids digit_grid demo_ref demo_store_assigned
        = (Ok demo_ref, <[demo_ref := d']> demo_store_assigned) ∧
    columns d' = columns demo_assigned ∧
    Forall2 (λ r r',
      SHAPE r' = SHAPE r ∧ h3 r' = h3 r ∧ h3_orig r' = h3_orig r ∧
      ((∃ L, 1 ≤ L < 3 ∧ h3 r !! L ∈ ids ∧
             (∀ L', 1 ≤ L' < L → h3 r !! L' ∉ ids) ∧
             h3_id r' = h3 r !! L ∧ h3_lvl r' = Some L) ∨
       ((∀ L, 1 ≤ L < 3 → h3 r !! L ∉ ids) ∧
        h3_id r' = h3_id r ∧ h3_lvl r' = h3_lvl r)))
      (rows demo_assigned) (rows d').
Proof.
  assert (level_range 1 3 demo_assigned) as Hrange.
  { split; [by_compute|].
    intros L. change (_get_h3_range_lst_from_df demo_assigned) with [3; 2; 1].
    rewrite !elem_of_cons, elem_of_nil. lia. }
  assert (H3_ID ∈ columns demo_assigned) as Hid
    by (by_compute).
  assert (H3_LVL ∈ columns demo_assigned) as Hlvl
    by (by_compute).
  split; [reflexivity|]. split; [lia|]. split; [exact Hrange|].
  split; [exact Hid|]. split; [exact Hlvl|].
  apply (@remove_overlapping_uses_snapshot digit_grid demo_ref demo_store_assigned
           demo_assigned 1 3); [reflexivity|lia|exact Hrange|exact Hid|exact Hlvl].
Defined.

(** C6.  Tagging gives every point of the table its cell at level
    [h3_max], computed from its coordinates, and at every level [L] from
    [h3_min] up to below [h3_max] the parent at level [L] of its cell at
    level [L + 1].  The rows of the table stay the points they were, in
    their order, and the level columns are in the table. *)
Theorem nesting_consistency `{H3Laws} (df : ref) (σ : gmap ref DataFrame)
    (d : DataFrame) (h3_max h3_min : nat) :
  σ !! df = Some d → h3_min < h3_max →
  ∃ d', add_h3_ids_to_points df h3_max h3_min σ = (Ok df, <[df := d']> σ) ∧
    (∀ L, h3_min ≤ L ≤ h3_max → H3 L ∈ columns d') ∧
    Forall2 (λ r r',
      SHAPE r' = SHAPE r ∧
      h3 r' !! h3_max
      = Some (geo_to_h3 (centroid (SHAPE r)).2 (centroid (SHAPE r)).1 h3_max) ∧
      ∀ L, h3_min ≤ L < h3_max →
        ∃ c, h3 r' !! (L + 1) = Some c ∧ h3 r' !! L = Some (h3_to_parent c L))
      (rows d) (rows d').
Proof.
  intros Hσ Hlt. exists (tagged h3_min h3_max d).
  split; [by apply add_h3_ids_to_points_ok|]. split.
  - intros L HL. unfold tagged. cbn [columns].
    apply elem_of_tagged_columns; [lia|]. right. by exists L.
  - unfold tagged. cbn [rows]. apply Forall2_fmap_r, Forall_Forall2_diag, Forall_forall.
    intros r _. split; [apply tagged_row_fields|]. split.
    + rewrite tagged_row_lookup. by rewrite decide_True.
    + intros L HL. pose proof (nested_tagged_row h3_min h3_max r) as Hn.
      destruct (nested_lookup h3_min h3_max _ (L + 1) Hn) as (c & Hc & _); [lia|].
      exists c. split; [done|].
      apply (nested_parent h3_min h3_max _ L (L + 1) c); (done || lia).
Qed.

Lemma nesting_consistency_witness :
  (demo_store !! demo_ref = Some demo_points) ∧ 1 < 3 ∧
  ∃ d', @add_h3_ids_to_points digit_grid demo_ref 3 1 demo_store
        = (Ok demo_ref, <[demo_ref := d']> demo_store) ∧
    (∀ L, 1 ≤ L ≤ 3 → H3 L ∈ columns d') ∧
    Forall2 (λ r r',
      SHAPE r' = SHAPE r ∧
      h3 r' !! 3
      = Some (@geo_to_h3 digit_grid (centroid (SHAPE r)).2 (centroid (SHAPE r)).1 3) ∧
      ∀ L, 1 ≤ L < 3 →
        ∃ c, h3 r' !! (L + 1) = Some c ∧ h3 r' !! L = Some (h3_to_parent c L))
      (rows demo_points) (rows d').
Proof.
  split; [reflexivity|]. split; [lia|].
  apply (@nesting_consistency digit_grid digit_grid_laws demo_ref demo_store
           demo_points 3 1); [reflexivity|lia].
Defined.

(** C7.  On the table without points, where [min_count] is at least the
    number of points whatever it is, the pipeline does not return the empty
    output table: it raises ValueError in the threshold stage. *)
Theorem pipeline_raises_on_table_without_rows `{H3Lib} (sdf : ref)
    (σ : gmap ref DataFrame) (d : DataFrame) (h3_min h3_max : nat)
    (min_count : Z) :
  σ !! sdf = Some d → columns d = [] → rows d = [] → h3_min < h3_max →
  (Z.of_nat (length (rows d)) ≤ min_count)%Z →
  (get_nonoverlapping_h3_hexbins_for_points sdf h3_min h3_max min_count σ).1
  = Raise ValueError.
Proof.
  intros Hσ Hcols Hrows Hlt _. unfold get_nonoverlapping_h3_hexbins_for_points.
  rewrite (run_bind_ok _ _ _ _ _ (add_h3_ids_to_points_ok sdf σ d h3_min h3_max Hσ Hlt)).
  rewrite run_bind.
  pose proof (get_h3_ids_by_point_count_no_rows sdf
    (<[sdf := tagged h3_min h3_max d]> σ) (tagged h3_min h3_max d) min_count) as Hraise.
  destruct (get_h3_ids_by_point_count _ _ _) as [res σ']. simpl in Hraise.
  rewrite Hraise; [done|apply lookup_insert_eq| | |].
  - unfold tagged. cbn [rows]. by rewrite Hrows.
  - unfold tagged, tagged_columns. cbn [columns]. rewrite Hcols.
    rewrite elem_of_foldl_add_column, elem_of_add_column.
    intros [[[=]|[]%elem_of_nil]|(? & [=] & _)].
  - intros Hnil. destruct (tagged_level_range h3_min h3_max d Hcols ltac:(lia)) as [_ Hl].
    specialize (Hl h3_min). rewrite Hnil in Hl. apply (elem_of_nil h3_min), Hl. lia.
Qed.

Lemma pipeline_raises_on_table_without_rows_witness :
  (no_points_store !! demo_ref = Some no_points) ∧ columns no_points = [] ∧
  rows no_points = [] ∧ 5 < 9 ∧ (Z.of_nat (length (rows no_points)) ≤ 100)%Z ∧
  (@get_nonoverlapping_h3_hexbins_for_points digit_grid demo_ref 5 9 100
     no_points_store).1
  = Raise ValueError.
Proof.
  split; [reflexivity|]. split; [reflexivity|]. split; [reflexivity|].
  split; [lia|]. split; [vm_compute; discriminate|].
  apply (@pipeline_raises_on_table_without_rows digit_grid demo_ref no_points_store
           no_points 5 9 100);
    [reflexivity|reflexivity|reflexivity|lia|vm_compute; discriminate].
Defined.

(** Scenario C.  When the table has points and [min_count] is at least
    their number, the pipeline returns the empty output table; it does not
    raise. *)
Theorem threshold_above_total_gives_empty `{H3Lib} (sdf : ref)
    (σ : gmap ref DataFrame) (d : DataFrame) (h3_min h3_max : nat)
    (min_count : Z) :
  σ !! sdf = Some d → columns d = [] → rows d ≠ [] → h3_min < h3_max →
  (Z.of_nat (length (rows d)) ≤ min_count)%Z →
  ∃ σ', get_nonoverlapping_h3_hexbins_for_points sdf h3_min h3_max min_count σ
        = (Ok [], σ').
Proof.
  intros Hσ Hcols Hrows Hlt Htotal. eexists.
  rewrite (pipeline_ok sdf σ d h3_min h3_max min_count Hσ Hcols Hrows Hlt). cbv zeta.
  rewrite hexbins_of_no_rows; [done|].
  rewrite promoted_rows;
    [|lia|by apply tagged_level_range; [|lia]|by apply tagged_fresh].
  rewrite filter_none; [done|].
  intros r Hr [L (_ & (c & _ & Hgt)%passes_spec & _)%finest_passing_Some].
  pose proof (cell_count_le (tagged h3_min h3_max d) L c) as Hcnt.
  assert (length (rows (tagged h3_min h3_max d)) = length (rows d)) as Hlen
    by apply length_fmap.
  lia.
Qed.

Lemma threshold_above_total_gives_empty_witness :
  (demo_store !! demo_ref = Some demo_points) ∧ columns demo_points = [] ∧
  rows demo_points ≠ [] ∧ 1 < 3 ∧
  (Z.of_nat (length (rows demo_points)) ≤ 5)%Z ∧
  ∃ σ', @get_nonoverlapping_h3_hexbins_for_points digit_grid demo_ref 1 3 5 demo_store
        = (Ok [], σ').
Proof.
  split; [reflexivity|]. split; [reflexivity|]. split; [discriminate|].
  split; [lia|]. split; [vm_compute; discriminate|].
  apply (@threshold_above_total_gives_empty digit_grid demo_ref demo_store
           demo_points 1 3 5);
    [reflexivity|reflexivity|discriminate|lia|vm_compute; discriminate].
Defined.

(** C8, as the spec has it, fails: each annotating stage changes the table
    of the caller.  Tagging adds the level columns, threshold assignment
    drops the fifth point, overlap resolution overwrites the assignments. *)
Lemma stages_change_the_input_table :
  (@add_h3_ids_to_points digit_grid demo_ref 3 1 demo_store).2 !! demo_ref
    ≠ Some demo_points ∧
  (@get_h3_ids_by_point_count digit_grid demo_ref 1 demo_store_tagged).2 !! demo_ref
    ≠ Some demo_tagged ∧
  (@remove_overlapping_h3_ids digit_grid demo_ref demo_store_assigned).2 !! demo_ref
    ≠ Some demo_assigned.
Proof.
  split; [|split].
  - intros Heq. apply (f_equal (fmap columns)) in Heq. vm_compute in Heq. discriminate.
  - intros Heq. apply (f_equal (fmap (length ∘ rows))) in Heq. vm_compute in Heq.
    discriminate.
  - intros Heq. apply (f_equal (fmap (fmap h3_id ∘ rows))) in Heq. vm_compute in Heq.
    discriminate.
Qed.

(** C8, as the code has it.  In the pipeline, on a table of points that
    has no h3 column yet, each of the three annotating stages writes into
    the table of the caller and returns that table; no other table of the
    store changes.  Tagging adds the level columns and fills them for
    every point.  Threshold assignment adds the assignment columns and
    drops the points without a passing level.  Overlap resolution
    overwrites the assignment of each point by the snapshot rule.  The
    last stage returns a new table, one record for each assigned cell
    with the number of its points, and leaves the store as it is. *)
Theorem stages_update_in_place `{H3Lib} (df df' : ref)
    (σ : gmap ref DataFrame) (d e : DataFrame) (h3_min h3_max : nat)
    (min_count : Z) :
  σ !! df = Some d → σ !! df' = Some e → df' ≠ df →
  columns d = [] → rows d ≠ [] → h3_min < h3_max →
  ∃ d1 d2 d3 out σ1 σ2 σ3,
    add_h3_ids_to_points df h3_max h3_min σ = (Ok df, σ1) ∧
    get_h3_ids_by_point_count df min_count σ1 = (Ok df, σ2) ∧
    remove_overlapping_h3_ids df σ2 = (Ok df, σ3) ∧
    get_h3_hexbins_with_counts df σ3 = (Ok out, σ3) ∧
    σ1 = <[df := d1]> σ ∧ σ2 = <[df := d2]> σ ∧ σ3 = <[df := d3]> σ ∧
    σ1 !! df' = Some e ∧ σ2 !! df' = Some e ∧ σ3 !! df' = Some e ∧
    (∀ c, c ∈ columns d1 ↔ ∃ L, c = H3 L ∧ h3_min ≤ L ≤ h3_max) ∧
    Forall2 (λ r r1,
      SHAPE r1 = SHAPE r ∧
      h3 r1 !! h3_max = Some (point_cell h3_max r) ∧
      ∀ L, h3_min ≤ L < h3_max →
           h3 r1 !! L = Some (h3_to_parent (point_cell h3_max r) L))
      (rows d) (rows d1) ∧
    (∀ c, c ∈ columns d2 ↔ c ∈ columns d1 ∨ c ∈ [H3_ID; H3_LVL; H3_ORIG]) ∧
    rows d2
    = omap (λ r, (λ L, mkRow (SHAPE r) (h3 r) (h3 r !! L) (Some L) (Some L))
                   <$> finest_passing min_count d1 r) (rows d1) ∧
    columns d3 = columns d2 ∧
    Forall2 (λ r r',
      let ids := unique (h3_id <$> rows d2) in
      SHAPE r' = SHAPE r ∧ h3 r' = h3 r ∧ h3_orig r' = h3_orig r ∧
      ((∃ L, h3_min ≤ L < h3_max ∧ h3 r !! L ∈ ids ∧
             (∀ L', h3_min ≤ L' < L → h3 r !! L' ∉ ids) ∧
             h3_id r' = h3 r !! L ∧ h3_lvl r' = Some L) ∨
       ((∀ L, h3_min ≤ L < h3_max → h3 r !! L ∉ ids) ∧
        h3_id r' = h3_id r ∧ h3_lvl r' = h3_lvl r)))
      (rows d2) (rows d3) ∧
    (∀ rec, rec ∈ out →
       hex_count rec
       = Some (length (filter (λ r, h3_id r = Some (hex_h3_id rec)) (rows d3)))) ∧
    (∀ r c, r ∈ rows d3 → h3_id r = Some c →
       ∃ rec, rec ∈ out ∧ hex_h3_id rec = c).
Proof.
  intros Hσ Hσ' Hne Hcols Hrows Hlt.
  assert (h3_min ≤ h3_max) as Hle by lia.
  set (d1 := tagged h3_min h3_max d).
  set (d2 := assigned min_count d1).
  set (d3 := promoted h3_min h3_max d2).
  pose proof (tagged_level_range h3_min h3_max d Hcols Hle) as Hrange.
  pose proof (tagged_fresh h3_min h3_max d Hcols) as Hfresh.
  fold d1 in Hrange, Hfresh.
  assert (rows d1 ≠ []) as Hrows1
    by (unfold d1, tagged; cbn [rows]; by destruct (rows d)).
  assert (_get_h3_range_lst_from_df d1 ≠ []) as Hlevels.
  { intros Hnil. destruct Hrange as [_ Hl]. specialize (Hl h3_min).
    rewrite Hnil in Hl. apply (elem_of_nil h3_min), Hl. lia. }
  destruct (assigned_columns min_count d1) as [Hid Hlvl]. fold d2 in Hid, Hlvl.
  exists d1, d2, d3, (hexbins_of d3),
    (<[df := d1]> σ), (<[df := d2]> σ), (<[df := d3]> σ).
  split; [by apply add_h3_ids_to_points_ok|].
  split.
  { rewrite (get_h3_ids_by_point_count_ok df (<[df := d1]> σ) d1 min_count
               (lookup_insert_eq _ _ _) Hrows1 Hlevels).
    by rewrite insert_insert_eq. }
  split.
  { rewrite (remove_overlapping_h3_ids_ok df (<[df := d2]> σ) d2 h3_min h3_max
               (lookup_insert_eq _ _ _) Hle
               (assigned_level_range min_count h3_min h3_max d1 Hrange) Hid Hlvl).
    by rewrite insert_insert_eq. }
  split.
  { apply get_h3_hexbins_with_counts_run; [apply lookup_insert_eq|done..]. }
  do 3 (split; [done|]).
  do 3 (split; [by rewrite lookup_insert_ne|]).
  split.
  { intros c. unfold d1, tagged. cbn [columns].
    rewrite elem_of_tagged_columns, Hcols, elem_of_nil by done. tauto. }
  split.
  { unfold d1, tagged. cbn [rows].
    apply Forall2_fmap_r, Forall_Forall2_diag, Forall_forall.
    intros r _. split; [apply tagged_row_fields|]. split.
    - rewrite tagged_row_lookup. by rewrite decide_True.
    - intros L HL. rewrite tagged_row_lookup.
      rewrite decide_False by lia. by rewrite decide_True. }
  split.
  { intros c. unfold d2, assigned. cbn [columns].
    rewrite elem_of_add_assignment_columns, !elem_of_cons, elem_of_nil. tauto. }
  split; [by apply assigned_rows_fresh|].
  split; [done|].
  split.
  { unfold d3, promoted. cbn [rows].
    apply Forall2_fmap_r, Forall_Forall2_diag, Forall_forall.
    intros r _. apply promoted_row_cases. }
  split.
  - by intros rec (_ & Hcnt & _)%elem_of_hexbins_of.
  - apply hexbins_of_intro.
Qed.

Lemma stages_update_in_place_witness :
  (demo_two_tables !! demo_ref = Some demo_points) ∧
  (demo_two_tables !! demo_other_ref = Some demo_other) ∧
  demo_other_ref ≠ demo_ref ∧
  columns demo_points = [] ∧ rows demo_points ≠ [] ∧ 1 < 3 ∧
  ∃ d1 d2 d3 out σ1 σ2 σ3,
    @add_h3_ids_to_points digit_grid demo_ref 3 1 demo_two_tables
    = (Ok demo_ref, σ1) ∧
    get_h3_ids_by_point_count demo_ref 1 σ1 = (Ok demo_ref, σ2) ∧
    remove_overlapping_h3_ids demo_ref σ2 = (Ok demo_ref, σ3) ∧
    get_h3_hexbins_with_counts demo_ref σ3 = (Ok out, σ3) ∧
    σ1 = <[demo_ref := d1]> demo_two_tables ∧
    σ2 = <[demo_ref := d2]> demo_two_tables ∧
    σ3 = <[demo_ref := d3]> demo_two_tables ∧
    σ1 !! demo_other_ref = Some demo_other ∧
    σ2 !! demo_other_ref = Some demo_other ∧
    σ3 !! demo_other_ref = Some demo_other ∧
    (∀ c, c ∈ columns d1 ↔ ∃ L, c = H3 L ∧ 1 ≤ L ≤ 3) ∧
    Forall2 (λ r r1,
      SHAPE r1 = SHAPE r ∧
      h3 r1 !! 3 = Some (point_cell 3 r) ∧
      ∀ L, 1 ≤ L < 3 → h3 r1 !! L = Some (h3_to_parent (point_cell 3 r) L))
      (rows demo_points) (rows d1) ∧
    (∀ c, c ∈ columns d2 ↔ c ∈ columns d1 ∨ c ∈ [H3_ID; H3_LVL; H3_ORIG]) ∧
    rows d2
    = omap (λ r, (λ L, mkRow (SHAPE r) (h3 r) (h3 r !! L) (Some L) (Some L))
                   <$> finest_passing 1 d1 r) (rows d1) ∧
    columns d3 = columns d2 ∧
    Forall2 (λ r r',
      let ids := unique (h3_id <$> rows d2) in
      SHAPE r' = SHAPE r ∧ h3 r' = h3 r ∧ h3_orig r' = h3_orig r ∧
      ((∃ L, 1 ≤ L < 3 ∧ h3 r !! L ∈ ids ∧
             (∀ L', 1 ≤ L' < L → h3 r !! L' ∉ ids) ∧
             h3_id r' = h3 r !! L ∧ h3_lvl r' = Some L) ∨
       ((∀ L, 1 ≤ L < 3 → h3 r !! L ∉ ids) ∧
        h3_id r' = h3_id r ∧ h3_lvl r' = h3_lvl r)))
      (rows d2) (rows d3) ∧
    (∀ rec, rec ∈ out →
       hex_count rec
       = Some (length (filter (λ r, h3_id r = Some (hex_h3_id rec)) (rows d3)))) ∧
    (∀ r c, r ∈ rows d3 → h3_id r = Some c →
       ∃ rec, rec ∈ out ∧ hex_h3_id rec = c).
Proof.
  split; [reflexivity|]. split; [reflexivity|]. split; [discriminate|].
  split; [reflexivity|]. split; [discriminate|]. split; [lia|].
  apply (@stages_update_in_place digit_grid demo_ref demo_other_ref
           demo_two_tables demo_points demo_other 1 3 1);
    [reflexivity|reflexivity|discriminate|reflexivity|discriminate|lia].
Defined.

(** C9.  When [h3_max ≤ h3_min] the tagging stage raises its assertion at
    once: no cell id is computed and the store, the caller's table
    included, is left as it was. *)
Theorem add_h3_ids_to_points_fails_fast `{H3Lib} (df : ref)
    (σ : gmap ref DataFrame) (d : DataFrame) (h3_max h3_min : nat) :
  σ !! df = Some d → h3_max ≤ h3_min →
  add_h3_ids_to_points df h3_max h3_min σ = (Raise AssertionError, σ).
Proof.
  intros Hσ Hle. unfold add_h3_ids_to_points.
  rewrite run_bind. unfold on_ref. rewrite Hσ.
  rewrite bool_decide_eq_false_2 by lia.
  simpl. by rewrite insert_id.
Qed.

Lemma add_h3_ids_to_points_fails_fast_witness :
  (demo_store !! demo_ref = Some demo_points) ∧ 5 ≤ 9 ∧
  @add_h3_ids_to_points digit_grid demo_ref 5 9 demo_store
  = (Raise AssertionError, demo_store).
Proof.
  split; [reflexivity|]. split; [lia|].
  apply (@add_h3_ids_to_points_fails_fast digit_grid demo_ref demo_store
           demo_points 5 9); [reflexivity|lia].
Defined.

(** C10, as the spec has it, fails on an area table without rows: no cell
    covers the area, yet what is raised is the KeyError of the feature-set
    conversion, not the "too coarse" exception. *)
Lemma empty_area_raises_KeyError :
  @covering_cells digit_grid [] 9 = [] ∧
  @get_unique_h3_ids_for_aoi digit_grid [] 9 = Raise KeyError ∧
  @get_unique_h3_ids_for_aoi digit_grid [] 9 ≠ Raise (Exception_too_coarse 9).
Proof. split; [reflexivity|]. split; [reflexivity|discriminate]. Qed.

(** C10, as the code has it.  When the area has no ring at all, the helper
    raises KeyError.  When it has a ring, the helper raises its "too
    coarse" exception exactly when no piece of the area is covered by a
    cell; otherwise it returns the covering cells, each once, and at least
    one. *)
Theorem get_unique_h3_ids_for_aoi_outcomes `{H3Lib}
    (orig_df : list AoiRow) (hex_level : nat) :
  match orig_df ≫= (λ row, rings (aoi_SHAPE row)) with
  | [] => get_unique_h3_ids_for_aoi orig_df hex_level = Raise KeyError
  | _ :: _ =>
      (get_unique_h3_ids_for_aoi orig_df hex_level
         = Raise (Exception_too_coarse hex_level)
       ↔ covering_cells orig_df hex_level = []) ∧
      match get_unique_h3_ids_for_aoi orig_df hex_level with
      | Ok h3_ids =>
          h3_ids ≠ [] ∧ NoDup h3_ids ∧
          ∀ c, c ∈ h3_ids ↔ c ∈ covering_cells orig_df hex_level
      | Raise e => e = Exception_too_coarse hex_level
      end
  end.
Proof.
  assert (concat ((λ g, polyfill (rings g) hex_level) <$>
                    (aoi_SHAPE <$> _preprocess_sdf_for_h3 orig_df))
          = covering_cells orig_df hex_level) as Hunion.
  { unfold _preprocess_sdf_for_h3, covering_cells.
    induction orig_df as [|row rows IH]; [done|]. csimpl.
    rewrite !fmap_app, concat_app, IH. f_equal.
    clear. induction (rings (aoi_SHAPE row)) as [|ring rs IH]; [done|].
    csimpl. by rewrite IH. }
  assert (length (_preprocess_sdf_for_h3 orig_df)
          = length (orig_df ≫= (λ row, rings (aoi_SHAPE row)))) as Hlen.
  { clear Hunion. unfold _preprocess_sdf_for_h3.
    induction orig_df as [|row rows IH]; [done|]. csimpl.
    by rewrite !length_app, length_fmap, IH. }
  unfold get_unique_h3_ids_for_aoi, to_featureset. cbv zeta.
  destruct (orig_df ≫= (λ row, rings (aoi_SHAPE row))) as [|ring rs].
  - destruct (_preprocess_sdf_for_h3 orig_df); [|done].
    by rewrite decide_True.
  - destruct (decide (_preprocess_sdf_for_h3 orig_df = [])) as [Hnil|_];
      [by rewrite Hnil in Hlen|].
    rewrite Hunion.
    set (cells := covering_cells orig_df hex_level).
    destruct (decide (length (drop_duplicates cells) = 0)) as [Hz|Hz].
    + apply length_zero_iff_nil, drop_duplicates_nil_inv in Hz. done.
    + split.
      * split; [done|]. intros Hnil. by rewrite Hnil in Hz.
      * split; [by intros Hnil; rewrite Hnil in Hz|].
        split; [apply NoDup_drop_duplicates|]. intros c. apply elem_of_drop_duplicates.
Qed.
